(** * receipt-processor: a shallow embedding of [main.go]

    The service keeps a package-level slice [receipts] and serves two
    handlers on it: [processReceipt] (POST /receipts/process) and
    [getPoints] (GET /receipts/:id/points).  The handlers are embedded as
    functions on the slice, with the request data as arguments and the
    response as result.

    Go strings are byte sequences: they are [string]s here (one [ascii] per
    byte).  Go's [int] is taken to be 64 bits wide, [float64] is
    [spec_float] at precision 53.  The functions of Go's standard library
    that [getPoints] calls are modelled in the modules [utf8], [unicode],
    [strings], [strconv] and [math] below. *)

From Stdlib Require Import ZArith Zquot String Ascii Bool Lia.
From Stdlib Require Import Floats.SpecFloat.
From stdpp Require Import base list.

Local Open Scope string_scope.
Local Open Scope Z_scope.

(** ** Bytes and Go's [int] *)

Definition byte_val (c : ascii) : Z := Z.of_N (N_of_ascii c).

(** [s[i]] for an index in range, 0 otherwise (never asked out of range). *)
Definition index (s : string) (i : Z) : Z :=
  match String.get (Z.to_nat i) s with
  | Some c => byte_val c
  | None => 0
  end.

(** [len(s)] *)
Definition len (s : string) : Z := Z.of_nat (String.length s).

(** [s[lo:hi]] for [0 <= lo <= hi <= len(s)]. *)
Definition slice (s : string) (lo hi : Z) : string :=
  substring (Z.to_nat lo) (Z.to_nat (hi - lo)) s.

(** A slice expression on a string panics when the bounds are out of range:
    [None] is the run-time panic. *)
Definition slice_checked (s : string) (lo hi : Z) : option string :=
  if (0 <=? lo) && (lo <=? hi) && (hi <=? len s)
  then Some (slice s lo hi) else None.

Definition int_min : Z := - 2 ^ 63.
Definition int_max : Z := 2 ^ 63 - 1.

(** Two's complement wrap-around of a 64-bit [int]. *)
Definition wrap_int (z : Z) : Z := (z + 2 ^ 63) mod 2 ^ 64 - 2 ^ 63.

Definition int_add (a b : Z) : Z := wrap_int (a + b).
Definition int_mul (a b : Z) : Z := wrap_int (a * b).

Definition in_int_range (z : Z) : bool := (int_min <=? z) && (z <=? int_max).

(** ** unicode/utf8 *)

Module utf8.

Definition RuneError : Z := 0xFFFD.
Definition RuneSelf : Z := 0x80.
Definition UTFMax : Z := 4.

(** An entry of the table [first]: [as_] is an ASCII byte, [xx] an
    invalid first byte, [sz n lo hi] the first byte of a sequence of [n]
    bytes whose second byte lies in the accept range [lo..hi]. *)
Inductive firstInfo :=
| as_
| xx
| sz (size : Z) (lo hi : Z).

Definition first (b : Z) : firstInfo :=
  if b <? 0x80 then as_
  else if b <? 0xC2 then xx
  else if b <? 0xE0 then sz 2 0x80 0xBF
  else if b =? 0xE0 then sz 3 0xA0 0xBF
  else if b <? 0xED then sz 3 0x80 0xBF
  else if b =? 0xED then sz 3 0x80 0x9F
  else if b <? 0xF0 then sz 3 0x80 0xBF
  else if b =? 0xF0 then sz 4 0x90 0xBF
  else if b <? 0xF4 then sz 4 0x80 0xBF
  else if b =? 0xF4 then sz 4 0x80 0x8F
  else xx.

Definition locb : Z := 0x80.
Definition hicb : Z := 0xBF.
Definition maskx : Z := 0x3F.
Definition mask2 : Z := 0x1F.
Definition mask3 : Z := 0x0F.
Definition mask4 : Z := 0x07.

(** [DecodeRuneInString]: the first rune of [s] and its width in bytes. *)
Definition DecodeRuneInString (s : string) : Z * Z :=
  let n := len s in
  if n <? 1 then (RuneError, 0)
  else
    let s0 := index s 0 in
    match first s0 with
    | as_ => (s0, 1)
    | xx => (RuneError, 1)
    | sz size lo hi =>
        if n <? size then (RuneError, 1)
        else
          let s1 := index s 1 in
          if (s1 <? lo) || (hi <? s1) then (RuneError, 1)
          else if size <=? 2
          then (Z.lor (Z.shiftl (Z.land s0 mask2) 6) (Z.land s1 maskx), 2)
          else
            let s2 := index s 2 in
            if (s2 <? locb) || (hicb <? s2) then (RuneError, 1)
            else if size <=? 3
            then (Z.lor (Z.lor (Z.shiftl (Z.land s0 mask3) 12)
                               (Z.shiftl (Z.land s1 maskx) 6))
                        (Z.land s2 maskx), 3)
            else
              let s3 := index s 3 in
              if (s3 <? locb) || (hicb <? s3) then (RuneError, 1)
              else (Z.lor (Z.lor (Z.lor (Z.shiftl (Z.land s0 mask4) 18)
                                        (Z.shiftl (Z.land s1 maskx) 12))
                                 (Z.shiftl (Z.land s2 maskx) 6))
                          (Z.land s3 maskx), 4)
    end.

(** [RuneStart]: the byte is not a continuation byte. *)
Definition RuneStart (b : Z) : bool := negb (Z.land b 0xC0 =? 0x80).

(** The backwards loop of [DecodeLastRuneInString]:
    [for start--; start >= lim; start-- { if RuneStart(s[start]) { break } }],
    entered after the first decrement. *)
Fixpoint scanBack (fuel : nat) (s : string) (start lim : Z) : Z :=
  match fuel with
  | O => start
  | S fuel' =>
      if start <? lim then start
      else if RuneStart (index s start) then start
      else scanBack fuel' s (start - 1) lim
  end.

(** [DecodeLastRuneInString]: the last rune of [s] and its width. *)
Definition DecodeLastRuneInString (s : string) : Z * Z :=
  let end_ := len s in
  if end_ =? 0 then (RuneError, 0)
  else
    let start := end_ - 1 in
    let r := index s start in
    if r <? RuneSelf then (r, 1)
    else
      let lim := Z.max 0 (end_ - UTFMax) in
      let start := scanBack 5 s (start - 1) lim in
      let start := Z.max 0 start in
      let '(r, size) := DecodeRuneInString (slice s start end_) in
      if negb (start + size =? end_) then (RuneError, 1)
      else (r, size).

(** The runes that [for _, char := range s] yields, in order.  [skip]
    counts the bytes of the current rune that are still to be passed. *)
Fixpoint runes_from (s : string) (skip : nat) : list Z :=
  match s with
  | EmptyString => []
  | String _ rest =>
      match skip with
      | S k => runes_from rest k
      | O =>
          let '(r, size) := DecodeRuneInString s in
          r :: runes_from rest (Z.to_nat size - 1)
      end
  end.

Definition runes (s : string) : list Z := runes_from s 0.

End utf8.

(** ** unicode *)

Module unicode.

Definition MaxLatin1 : Z := 0xFF.

(** [IsSpace]: the Latin-1 spaces, then the table [White_Space]. *)
Definition IsSpace (r : Z) : bool :=
  if r <=? MaxLatin1
  then (r =? 0x09) || (r =? 0x0A) || (r =? 0x0B) || (r =? 0x0C)
       || (r =? 0x0D) || (r =? 0x20) || (r =? 0x85) || (r =? 0xA0)
  else (r =? 0x1680) || ((0x2000 <=? r) && (r <=? 0x200A))
       || (r =? 0x2028) || (r =? 0x2029) || (r =? 0x202F)
       || (r =? 0x205F) || (r =? 0x3000).

(** The letters of Latin-1 (the [pLmask] entries of [properties]). *)
Definition latin1_letter (r : Z) : bool :=
  ((0x41 <=? r) && (r <=? 0x5A)) || ((0x61 <=? r) && (r <=? 0x7A))
  || (r =? 0xAA) || (r =? 0xB5) || (r =? 0xBA)
  || ((0xC0 <=? r) && (r <=? 0xD6)) || ((0xD8 <=? r) && (r <=? 0xF6))
  || ((0xF8 <=? r) && (r <=? 0xFF)).

(** [IsLetter]; [letterTable] stands for [isExcludingLatin(Letter, r)],
    the range table of the Unicode category L beyond Latin-1. *)
Definition IsLetter (letterTable : Z -> bool) (r : Z) : bool :=
  if (0 <=? r) && (r <=? MaxLatin1) then latin1_letter r
  else letterTable r.

(** [IsDigit]; [digitTable] stands for [isExcludingLatin(Digit, r)]. *)
Definition IsDigit (digitTable : Z -> bool) (r : Z) : bool :=
  if (0 <=? r) && (r <=? MaxLatin1) then (0x30 <=? r) && (r <=? 0x39)
  else digitTable r.

End unicode.

(** ** strings *)

Module strings.

(** [indexFunc(s, f, false)]: the byte offset of the first rune that
    does not satisfy [f], counted from [i]; [-1] when there is none. *)
Fixpoint indexFuncNot (fuel : nat) (f : Z -> bool) (s : string) (i : Z) : Z :=
  match fuel with
  | O => -1
  | S fuel' =>
      if len s <=? i then -1
      else
        let '(r, size) := utf8.DecodeRuneInString (slice s i (len s)) in
        if negb (f r) then i
        else indexFuncNot fuel' f s (i + size)
  end.

Definition TrimLeftFunc (s : string) (f : Z -> bool) : string :=
  let i := indexFuncNot (String.length s) f s 0 in
  if i =? -1 then "" else slice s i (len s).

(** [lastIndexFunc(s, f, false)]: the byte offset of the last rune that
    does not satisfy [f], decoding backwards from [i]. *)
Fixpoint lastIndexFuncNot (fuel : nat) (f : Z -> bool) (s : string) (i : Z) : Z :=
  match fuel with
  | O => -1
  | S fuel' =>
      if i <=? 0 then -1
      else
        let '(r, size) := utf8.DecodeLastRuneInString (slice s 0 i) in
        let i := i - size in
        if negb (f r) then i
        else lastIndexFuncNot fuel' f s i
  end.

Definition TrimRightFunc (s : string) (f : Z -> bool) : string :=
  let i := lastIndexFuncNot (String.length s) f s (len s) in
  let i :=
    if (0 <=? i) && (utf8.RuneSelf <=? index s i)
    then i + snd (utf8.DecodeRuneInString (slice s i (len s)))
    else i + 1 in
  slice s 0 i.

Definition TrimFunc (s : string) (f : Z -> bool) : string :=
  TrimRightFunc (TrimLeftFunc s f) f.

(** The table [asciiSpace]: the six ASCII spaces. *)
Definition asciiSpace (c : Z) : bool :=
  (c =? 0x09) || (c =? 0x0A) || (c =? 0x0B) || (c =? 0x0C) || (c =? 0x0D)
  || (c =? 0x20).

(** [TrimSpace]: Go first strips ASCII spaces byte by byte and hands the
    rest to [TrimFunc]/[TrimRightFunc] with [unicode.IsSpace] once a
    non-ASCII byte shows up; the result is that of [TrimFunc]. *)
Definition TrimSpace (s : string) : string :=
  TrimFunc s unicode.IsSpace.

End strings.

(** ** float64 *)

Definition float64 : Type := spec_float.

Definition prec64 : Z := 53.
Definition emax64 : Z := 1024.

(** The float64 nearest to [m * 2^e] (ties to even). *)
Definition float_of_binary (neg : bool) (m : Z) (e : Z) : float64 :=
  match m with
  | Zpos p => binary_round prec64 emax64 neg p e
  | _ => S754_zero neg
  end.

(** The float64 nearest to [m * 10^e] (ties to even). *)
Definition float_of_decimal (neg : bool) (m : Z) (e : Z) : float64 :=
  match m with
  | Zpos p =>
      if 0 <=? e
      then binary_round prec64 emax64 neg (p * Z.to_pos (10 ^ e)) 0
      else
        let '(q, e', l) :=
          SFdiv_core_binary prec64 emax64 (Zpos p) 0 (10 ^ (- e)) 0 in
        binary_round_aux prec64 emax64 neg q e' l
  | _ => S754_zero neg
  end.

(** The constants [1], [.25] and [.2] of [getPoints], converted to float64
    as the compiler does. *)
Definition float_1 : float64 := float_of_decimal false 1 0.
Definition float_0_25 : float64 := float_of_decimal false 25 (-2).
Definition float_0_2 : float64 := float_of_decimal false 2 (-1).

Definition float_zero : float64 := S754_zero false.

(** [x == y] and [x * y] on float64. *)
Definition float_eq (x y : float64) : bool := SFeqb x y.
Definition float_mul (x y : float64) : float64 := SFmul prec64 emax64 x y.

(** ** strconv *)

Module strconv.

Definition is_digit (c : Z) : bool := (0x30 <=? c) && (c <=? 0x39).

(** [lower(c)] is [c | ('x' - 'X')]. *)
Definition lower (c : Z) : Z := Z.lor c 0x20.

Definition is_hex_letter (c : Z) : bool :=
  (0x61 <=? lower c) && (lower c <=? 0x66).

(** Decimal digits, most significant first, onto the accumulator. *)
Fixpoint digits_value (s : string) (acc : Z) : option Z :=
  match s with
  | EmptyString => Some acc
  | String c rest =>
      let ch := byte_val c - 0x30 in
      if (0 <=? ch) && (ch <=? 9) then digits_value rest (acc * 10 + ch)
      else None
  end.

(** [Atoi]: an optional sign and at least one decimal digit, nothing
    else; [None] is a non-nil error, a syntax error or a value out of the
    range of [int]. *)
Definition Atoi (s : string) : option Z :=
  match s with
  | EmptyString => None
  | String c rest =>
      let signed := (byte_val c =? 0x2D) || (byte_val c =? 0x2B) in
      let ds := if signed then rest else s in
      match ds with
      | EmptyString => None
      | _ =>
          match digits_value ds 0 with
          | None => None
          | Some n =>
              let n := if byte_val c =? 0x2D then - n else n in
              if in_int_range n then Some n else None
          end
      end
  end.

(** [commonPrefixLenIgnoreCase(s, prefix)], [prefix] in lower case. *)
Fixpoint commonPrefixLenIgnoreCase (s prefix : string) : Z :=
  match s, prefix with
  | String c s', String p prefix' =>
      let c := byte_val c in
      let c := if (0x41 <=? c) && (c <=? 0x5A) then c + 0x20 else c in
      if c =? byte_val p then 1 + commonPrefixLenIgnoreCase s' prefix'
      else 0
  | _, _ => 0
  end.

(** [special]: the strings for infinities and NaN; the result is the
    value and the number of bytes consumed. *)
Definition special (s : string) : option (float64 * Z) :=
  match s with
  | EmptyString => None
  | String c rest =>
      let c0 := byte_val c in
      let inf (neg : bool) (nsign : Z) (s : string) :=
        let n := commonPrefixLenIgnoreCase s "infinity" in
        let n := if (3 <? n) && (n <? 8) then 3 else n in
        if (n =? 3) || (n =? 8) then Some (S754_infinity neg, nsign + n)
        else None in
      if (c0 =? 0x2B) || (c0 =? 0x2D) then inf (c0 =? 0x2D) 1 rest
      else if (c0 =? 0x69) || (c0 =? 0x49) then inf false 0 s
      else if (c0 =? 0x6E) || (c0 =? 0x4E) then
        if commonPrefixLenIgnoreCase s "nan" =? 3 then Some (S754_nan, 3)
        else None
      else None
  end.

(** The state of the digit loop of [readFloat].  [mantissa] collects
    every digit: Go keeps the first 19 (16 in base 16) in a [uint64],
    sets [trunc] for the rest and rounds from all the digits when
    [trunc] is set, so the value converted is that of all the digits. *)
Record mantState := {
  underscores : bool;
  sawdot : bool;
  sawdigits : bool;
  nd : Z;
  dp : Z;
  mantissa : Z
}.

Fixpoint readDigits (hex : bool) (s : string) (st : mantState)
  : mantState * string :=
  match s with
  | EmptyString => (st, s)
  | String ch rest =>
      let c := byte_val ch in
      if c =? 0x5F then
        readDigits hex rest
          {| underscores := true; sawdot := sawdot st;
             sawdigits := sawdigits st; nd := nd st; dp := dp st;
             mantissa := mantissa st |}
      else if c =? 0x2E then
        if sawdot st then (st, s)
        else readDigits hex rest
               {| underscores := underscores st; sawdot := true;
                  sawdigits := sawdigits st; nd := nd st; dp := nd st;
                  mantissa := mantissa st |}
      else if is_digit c then
        if (c =? 0x30) && (nd st =? 0) then
          readDigits hex rest
            {| underscores := underscores st; sawdot := sawdot st;
               sawdigits := true; nd := nd st; dp := dp st - 1;
               mantissa := mantissa st |}
        else
          readDigits hex rest
            {| underscores := underscores st; sawdot := sawdot st;
               sawdigits := true; nd := nd st + 1; dp := dp st;
               mantissa :=
                 mantissa st * (if hex then 16 else 10) + (c - 0x30) |}
      else if hex && is_hex_letter c then
        readDigits hex rest
          {| underscores := underscores st; sawdot := sawdot st;
             sawdigits := true; nd := nd st + 1; dp := dp st;
             mantissa := mantissa st * 16 + (lower c - 0x61 + 10) |}
      else (st, s)
  end.

(** The digit loop of the exponent:
    [if e < 10000 { e = e*10 + int(s[i]) - '0' }], underscores skipped. *)
Fixpoint readExp (s : string) (e : Z) (us : bool) : Z * bool * string :=
  match s with
  | EmptyString => (e, us, s)
  | String ch rest =>
      let c := byte_val ch in
      if c =? 0x5F then readExp rest e true
      else if is_digit c then
        readExp rest (if e <? 10000 then e * 10 + c - 0x30 else e) us
      else (e, us, s)
  end.

(** [underscoreOK]: underscores only between digits, or between a base
    prefix and a digit.  [saw] is the last character seen. *)
Inductive sawKind := saw_begin | saw_digit | saw_underscore | saw_other.

Fixpoint underscoreLoop (hex : bool) (s : string) (saw : sawKind) : bool :=
  match s with
  | EmptyString =>
      match saw with saw_underscore => false | _ => true end
  | String ch rest =>
      let c := byte_val ch in
      if is_digit c || (hex && is_hex_letter c)
      then underscoreLoop hex rest saw_digit
      else if c =? 0x5F then
        match saw with
        | saw_digit => underscoreLoop hex rest saw_underscore
        | _ => false
        end
      else
        match saw with
        | saw_underscore => false
        | _ => underscoreLoop hex rest saw_other
        end
  end.

Definition underscoreOK (s : string) : bool :=
  let s :=
    if (1 <=? len s) && ((index s 0 =? 0x2D) || (index s 0 =? 0x2B))
    then slice s 1 (len s) else s in
  let l1 := lower (index s 1) in
  if (2 <=? len s) && (index s 0 =? 0x30)
     && ((l1 =? 0x62) || (l1 =? 0x6F) || (l1 =? 0x78))
  then underscoreLoop (l1 =? 0x78) (slice s 2 (len s)) saw_digit
  else underscoreLoop false s saw_begin.

(** What [readFloat] returns when [ok]: the sign, the mantissa, the
    exponent (of 10, or of 2 when [rf_hex]) and the bytes consumed. *)
Record readResult := {
  rf_neg : bool;
  rf_mantissa : Z;
  rf_exp : Z;
  rf_hex : bool;
  rf_n : Z
}.

Definition readFloat (s : string) : option readResult :=
  if len s <=? 0 then None
  else
    let c0 := index s 0 in
    let neg := c0 =? 0x2D in
    let i := if (c0 =? 0x2B) || (c0 =? 0x2D) then 1 else 0 in
    let hex := (i + 2 <? len s) && (index s i =? 0x30)
               && (lower (index s (i + 1)) =? 0x78) in
    let i := if hex then i + 2 else i in
    let '(st, rest) :=
      readDigits hex (slice s i (len s))
        {| underscores := false; sawdot := false; sawdigits := false;
           nd := 0; dp := 0; mantissa := 0 |} in
    if negb (sawdigits st) then None
    else
      let dp := if sawdot st then dp st else nd st in
      let dp := if hex then dp * 4 else dp in
      let ndMant := if hex then nd st * 4 else nd st in
      let expChar := if hex then 0x70 else 0x65 in
      let finish (dp : Z) (us : bool) (rest : string) :=
        let n := len s - len rest in
        if us && negb (underscoreOK (slice s 0 n)) then None
        else Some {| rf_neg := neg; rf_mantissa := mantissa st;
                     rf_exp := if mantissa st =? 0 then 0 else dp - ndMant;
                     rf_hex := hex; rf_n := n |} in
      match rest with
      | String ch rest1 =>
          if lower (byte_val ch) =? expChar then
            match rest1 with
            | EmptyString => None
            | String sg rest2 =>
                let sgn := byte_val sg in
                let esign := if sgn =? 0x2D then -1 else 1 in
                let ds := if (sgn =? 0x2B) || (sgn =? 0x2D)
                          then rest2 else rest1 in
                match ds with
                | EmptyString => None
                | String d _ =>
                    if negb (is_digit (byte_val d)) then None
                    else
                      let '(e, us, rest3) :=
                        readExp ds 0 (underscores st) in
                      finish (dp + e * esign) us rest3
                end
            end
          else if hex then None
          else finish dp (underscores st) rest
      | EmptyString =>
          if hex then None else finish dp (underscores st) rest
      end.

(** [ParseFloat(s, 64)]: the nearest float64 to the number written in
    [s]; [None] is a non-nil error (a syntax error, trailing bytes, or a
    value out of range, which Go reports together with an infinity). *)
Definition ParseFloat (s : string) : option float64 :=
  match special s with
  | Some (val, n) => if n =? len s then Some val else None
  | None =>
      match readFloat s with
      | None => None
      | Some r =>
          if negb (rf_n r =? len s) then None
          else
            let f :=
              if rf_hex r
              then float_of_binary (rf_neg r) (rf_mantissa r) (rf_exp r)
              else float_of_decimal (rf_neg r) (rf_mantissa r) (rf_exp r) in
            match f with
            | S754_infinity _ => None
            | _ => Some f
            end
      end
  end.

End strconv.

(** ** math *)

Module math.

(** [Mod(x, y)]: the remainder of [x / y] with the sign of [x]; it is
    exact.  NaN when [y] is zero or [x] is infinite or either is NaN;
    [x] when [y] is infinite. *)
Definition Mod (x y : float64) : float64 :=
  match x, y with
  | S754_nan, _ | _, S754_nan => S754_nan
  | S754_infinity _, _ => S754_nan
  | _, S754_zero _ => S754_nan
  | _, S754_infinity _ => x
  | S754_zero _, _ => x
  | S754_finite sx mx ex, S754_finite _ my ey =>
      let e := Z.min ex ey in
      let X := Zpos mx * 2 ^ (ex - e) in
      let Y := Zpos my * 2 ^ (ey - e) in
      binary_normalize prec64 emax64 (cond_Zopp sx (X mod Y)) e sx
  end.

(** [Ceil(x)]: the least integer value not below [x]; zeros, infinities
    and NaN are returned as they are, and a result that is zero keeps the
    sign of [x]. *)
Definition Ceil (x : float64) : float64 :=
  match x with
  | S754_finite s m e =>
      if 0 <=? e then x
      else
        let n := cond_Zopp s (Zpos m) in
        binary_normalize prec64 emax64 (- ((- n) / 2 ^ (- e))) 0 s
  | _ => x
  end.

End math.

(** [int(f)] for a float64: the fraction is discarded.  When the value
    does not fit [int] (or is not a number) the conversion succeeds with an
    implementation-dependent result, [unrepresentable f]. *)
Definition int_of_float (unrepresentable : float64 -> Z) (f : float64) : Z :=
  match f with
  | S754_zero _ => 0
  | S754_finite s m e =>
      let z := if 0 <=? e
               then cond_Zopp s (Zpos m * 2 ^ e)
               else cond_Zopp s (Zpos m / 2 ^ (- e)) in
      if in_int_range z then z else wrap_int (unrepresentable f)
  | _ => wrap_int (unrepresentable f)
  end.

(** ** The data model of [main.go] *)

(** [type item struct] *)
Record item := {
  ShortDescription : string;
  Price : string
}.

(** [type receipt struct] *)
Record receipt := {
  Retailer : string;
  PurchaseDate : string;
  PurchaseTime : string;
  Items : list item;
  Total : string;
  ID : string;
  Points : Z
}.

(** [receipt.Points = pointTotal] *)
Definition set_Points (r : receipt) (pointTotal : Z) : receipt :=
  {| Retailer := Retailer r; PurchaseDate := PurchaseDate r;
     PurchaseTime := PurchaseTime r; Items := Items r; Total := Total r;
     ID := ID r; Points := pointTotal |}.

(** The bodies the handlers send: [gin.H{"message": ...}], [returnID] and
    [returnPoints]. *)
Inductive payload :=
| Message (message : string)
| ReturnID (id : string)
| ReturnPoints (points : Z).

Record response := {
  status : Z;
  body : payload
}.

Definition StatusOK : Z := 200.
Definition StatusBadRequest : Z := 400.
Definition StatusNotFound : Z := 404.

(** ** The request body and [context.BindJSON]

    [BindJSON] decodes the body with [encoding/json] into the struct it is
    given.  Decoding sets exactly the fields for which the JSON object has
    a member (matched by the [json] tag) and leaves the others as they
    are.  [receiptJSON] is what a body that decodes holds for each field of
    [receipt]; [Undecodable] is a body for which decoding fails (no JSON, a
    member whose JSON type does not fit its field). *)
Record receiptJSON := {
  jRetailer : option string;
  jPurchaseDate : option string;
  jPurchaseTime : option string;
  jItems : option (list item);
  jTotal : option string;
  jID : option string;
  jPoints : option Z
}.

Inductive requestBody :=
| Undecodable
| Decodable (j : receiptJSON).

Definition decode_field {A : Type} (member : option A) (field : A) : A :=
  match member with
  | Some v => v
  | None => field
  end.

(** [err := context.BindJSON(&obj)]: [None] is a non-nil error.  A number
    for [points] that overflows [int] is an error too. *)
Definition BindJSON (b : requestBody) (obj : receipt) : option receipt :=
  match b with
  | Undecodable => None
  | Decodable j =>
      if in_int_range (decode_field (jPoints j) 0)
      then Some {| Retailer := decode_field (jRetailer j) (Retailer obj);
                   PurchaseDate := decode_field (jPurchaseDate j) (PurchaseDate obj);
                   PurchaseTime := decode_field (jPurchaseTime j) (PurchaseTime obj);
                   Items := decode_field (jItems j) (Items obj);
                   Total := decode_field (jTotal j) (Total obj);
                   ID := decode_field (jID j) (ID obj);
                   Points := decode_field (jPoints j) (Points obj) |}
      else None
  end.

(** ** [processReceipt] *)

(** [var newReceipt receipt] *)
Definition zero_receipt : receipt :=
  {| Retailer := ""; PurchaseDate := ""; PurchaseTime := ""; Items := [];
     Total := ""; ID := ""; Points := 0 |}.

Definition set_ID (r : receipt) (id : string) : receipt :=
  {| Retailer := Retailer r; PurchaseDate := PurchaseDate r;
     PurchaseTime := PurchaseTime r; Items := Items r; Total := Total r;
     ID := id; Points := Points r |}.

(** [processReceipt]; [newId] is the string [uuid.NewString()] returned,
    [b] the request body, [receipts] the package-level slice.  The result
    is the response and the slice after the call. *)
Definition processReceipt (newId : string) (b : requestBody)
    (receipts : list receipt) : response * list receipt :=
  let newReceipt := zero_receipt in
  let newReceipt := set_ID newReceipt newId in
  match BindJSON b newReceipt with
  | None =>
      ({| status := StatusBadRequest;
          body := Message "The receipt is invalid" |}, receipts)
  | Some newReceipt =>
      ({| status := StatusOK; body := ReturnID newId |},
       (receipts ++ [newReceipt])%list)
  end.

(** ** [getReceiptById] *)

(** The result is the index [i] of [&receipts[i]] with the record found
    there; [None] is the error "no receipt found for that id". *)
Fixpoint getReceiptById (receipts : list receipt) (id : string)
  : option (nat * receipt) :=
  match receipts with
  | [] => None
  | r :: rest =>
      if String.eqb (ID r) id then Some (O, r)
      else match getReceiptById rest id with
           | Some (i, r') => Some (S i, r')
           | None => None
           end
  end.

(** ** [getPoints] *)

(** What the computation of lines 89-155 ends in: the tally, one of the
    four "Unable to calculate points" responses, or a run-time panic of a
    slice expression. *)
Inductive calc :=
| Score (pointTotal : Z)
| Invalid (message : string)
| Panic.

(** Where [getPoints] leaves: each constructor is one [return] of the
    handler (or its end), or the panic. *)
Inductive exit :=
| exit_not_found
| exit_cached (points : Z)
| exit_invalid (message : string)
| exit_computed (points : Z)
| exit_panic.

(** The response written on each way out; the handler writes none when it
    panics. *)
Definition response_of (e : exit) : option response :=
  match e with
  | exit_not_found =>
      Some {| status := StatusNotFound;
              body := Message "No receipt found for that id" |}
  | exit_cached points =>
      Some {| status := StatusOK; body := ReturnPoints points |}
  | exit_invalid message =>
      Some {| status := StatusBadRequest; body := Message message |}
  | exit_computed points =>
      Some {| status := StatusOK; body := ReturnPoints points |}
  | exit_panic => None
  end.

(** What [getPoints] takes from the Go installation it runs on: the range
    tables of [unicode] beyond Latin-1, and the result of a float-to-int
    conversion whose value does not fit. *)
Class GoInstallation := {
  letterTable : Z -> bool;
  digitTable : Z -> bool;
  unrepresentable : float64 -> Z
}.

Section GetPoints.

Context {go : GoInstallation}.

(** Lines 92-96: one point for every alphanumeric rune of the retailer. *)
Fixpoint retailerLoop (chars : list Z) (pointTotal : Z) : Z :=
  match chars with
  | [] => pointTotal
  | char :: rest =>
      if unicode.IsLetter letterTable char
         || unicode.IsDigit digitTable char
      then retailerLoop rest (int_add pointTotal 1)
      else retailerLoop rest pointTotal
  end.

(** Lines 106-108: 50 points for a round dollar amount. *)
Definition roundDollar (totalFloat : float64) (pointTotal : Z) : Z :=
  if float_eq (math.Mod totalFloat float_1) float_zero
  then int_add pointTotal 50 else pointTotal.

(** Lines 111-113: 25 points for a multiple of 0.25. *)
Definition quarterMultiple (totalFloat : float64) (pointTotal : Z) : Z :=
  if float_eq (math.Mod totalFloat float_0_25) float_zero
  then int_add pointTotal 25 else pointTotal.

(** Line 116: 5 points for every two items. *)
Definition itemPairs (items : list item) (pointTotal : Z) : Z :=
  int_add pointTotal (int_mul (Z.quot (Z.of_nat (length items)) 2) 5).

(** Lines 121-133: the loop over the items; [None] is the return of
    line 127-128 (a price that does not parse). *)
Fixpoint itemsLoop (items : list item) (pointTotal : Z) : option Z :=
  match items with
  | [] => Some pointTotal
  | item :: rest =>
      if Z.rem (len (strings.TrimSpace (ShortDescription item))) 3 =? 0
      then
        match strconv.ParseFloat (Price item) with
        | None => None
        | Some priceFloat =>
            itemsLoop rest
              (int_add pointTotal
                 (int_of_float unrepresentable
                    (math.Ceil (float_mul priceFloat float_0_2))))
        end
      else itemsLoop rest pointTotal
  end.

(** Lines 142-144: 6 points for an odd day. *)
Definition oddDay (dayInt : Z) (pointTotal : Z) : Z :=
  if Z.rem dayInt 2 =? 1 then int_add pointTotal 6 else pointTotal.

(** Lines 153-155: 10 points for a purchase at 14 or 15 hours. *)
Definition afternoon (hourInt : Z) (pointTotal : Z) : Z :=
  if (hourInt =? 14) || (hourInt =? 15)
  then int_add pointTotal 10 else pointTotal.

(** The handler leaves at the first step that does not yield a tally. *)
Definition bind (c : calc) (k : Z -> calc) : calc :=
  match c with
  | Score pointTotal => k pointTotal
  | Invalid message => Invalid message
  | Panic => Panic
  end.

Local Notation "x <- c ;; k" := (bind c (fun x => k))
  (at level 100, c at next level, right associativity).

(** Lines 92-96. *)
Definition retailerRule (receipt : receipt) (pointTotal : Z) : calc :=
  Score (retailerLoop (utf8.runes (Retailer receipt)) pointTotal).

(** Lines 99-113: the total is parsed, then the two rules on it. *)
Definition totalRules (receipt : receipt) (pointTotal : Z) : calc :=
  match strconv.ParseFloat (Total receipt) with
  | None => Invalid "Unable to calculate points (invalid total)"
  | Some totalFloat =>
      let pointTotal := roundDollar totalFloat pointTotal in
      let pointTotal := quarterMultiple totalFloat pointTotal in
      Score pointTotal
  end.

(** Lines 116-133: the pairs of items, then the loop over the items. *)
Definition itemRules (receipt : receipt) (pointTotal : Z) : calc :=
  let pointTotal := itemPairs (Items receipt) pointTotal in
  match itemsLoop (Items receipt) pointTotal with
  | None => Invalid "Unable to calculate points (invalid item price(s))"
  | Some pointTotal => Score pointTotal
  end.

(** Lines 136-144: the day is bytes 8 and 9 of the date. *)
Definition dateRule (receipt : receipt) (pointTotal : Z) : calc :=
  match slice_checked (PurchaseDate receipt) 8 10 with
  | None => Panic
  | Some dd =>
      match strconv.Atoi dd with
      | None =>
          Invalid "Unable to calculate points (invalid date of purchase)"
      | Some dayInt => Score (oddDay dayInt pointTotal)
      end
  end.

(** Lines 147-155: the hour is bytes 0 and 1 of the time. *)
Definition timeRule (receipt : receipt) (pointTotal : Z) : calc :=
  match slice_checked (PurchaseTime receipt) 0 2 with
  | None => Panic
  | Some hh =>
      match strconv.Atoi hh with
      | None =>
          Invalid "Unable to calculate points (invalid time of purchase)"
      | Some hourInt => Score (afternoon hourInt pointTotal)
      end
  end.

(** Lines 89-144: the tally before the time of purchase is looked at. *)
Definition tallyBeforeTime (receipt : receipt) : calc :=
  pointTotal <- Score 0 ;;
  pointTotal <- retailerRule receipt pointTotal ;;
  pointTotal <- totalRules receipt pointTotal ;;
  pointTotal <- itemRules receipt pointTotal ;;
  dateRule receipt pointTotal.

(** Lines 89-155: the whole computation of [pointTotal]. *)
Definition calculate (receipt : receipt) : calc :=
  pointTotal <- Score 0 ;;
  pointTotal <- retailerRule receipt pointTotal ;;
  pointTotal <- totalRules receipt pointTotal ;;
  pointTotal <- itemRules receipt pointTotal ;;
  pointTotal <- dateRule receipt pointTotal ;;
  timeRule receipt pointTotal.

(** [getPoints]; [id] is [context.Param("id")].  The result is the way
    out of the handler and the slice after the call. *)
Definition getPoints (id : string) (receipts : list receipt)
  : exit * list receipt :=
  match getReceiptById receipts id with
  | None => (exit_not_found, receipts)
  | Some (i, receipt) =>
      if negb (Points receipt =? 0)
      then (exit_cached (Points receipt), receipts)
      else
        match calculate receipt with
        | Invalid message => (exit_invalid message, receipts)
        | Panic => (exit_panic, receipts)
        | Score pointTotal =>
            let receipt := set_Points receipt pointTotal in
            (exit_computed (Points receipt), <[i := receipt]> receipts)
        end
  end.

(** ** The service: requests served one after the other *)

Inductive request :=
| Submit (newId : string) (b : requestBody)
| Query (id : string).

Definition serve (q : request) (receipts : list receipt) : list receipt :=
  match q with
  | Submit newId b => snd (processReceipt newId b receipts)
  | Query id => snd (getPoints id receipts)
  end.

Definition serve_all (qs : list request) (receipts : list receipt)
  : list receipt :=
  fold_left (fun rs q => serve q rs) qs receipts.

End GetPoints.

(** ** A Go installation and some receipts to evaluate the handlers on

    The receipts below have ASCII retailer names and prices of a few
    digits, so neither the range tables nor the result of an
    unrepresentable conversion is ever consulted on them. *)

Definition no_table (r : Z) : bool := false.

(** On amd64 an unrepresentable conversion yields the least [int]. *)
Definition amd64_unrepresentable (f : float64) : Z := int_min.

Definition amd64 : GoInstallation :=
  {| letterTable := no_table; digitTable := no_table;
     unrepresentable := amd64_unrepresentable |}.

Definition no_members : receiptJSON :=
  {| jRetailer := None; jPurchaseDate := None; jPurchaseTime := None;
     jItems := None; jTotal := None; jID := None; jPoints := None |}.

Definition gatorade : item :=
  {| ShortDescription := "Gatorade"; Price := "2.25" |}.

(** A body without [id] and [points]. *)
Definition corner_market_body : requestBody :=
  Decodable {| jRetailer := Some "M&M Corner Market";
               jPurchaseDate := Some "2022-03-20";
               jPurchaseTime := Some "14:33";
               jItems := Some [gatorade; gatorade; gatorade; gatorade];
               jTotal := Some "9.00"; jID := None; jPoints := None |}.

Definition corner_market : receipt :=
  {| Retailer := "M&M Corner Market"; PurchaseDate := "2022-03-20";
     PurchaseTime := "14:33";
     Items := [gatorade; gatorade; gatorade; gatorade];
     Total := "9.00"; ID := "adb6b560-0eef-42bc-9d16-df48f30e89b2";
     Points := 0 |}.

(** The same body with an [id] member. *)
Definition client_id_body : requestBody :=
  Decodable {| jRetailer := Some "M&M Corner Market";
               jPurchaseDate := Some "2022-03-20";
               jPurchaseTime := Some "14:33";
               jItems := Some [gatorade; gatorade; gatorade; gatorade];
               jTotal := Some "9.00"; jID := Some "chosen-by-client";
               jPoints := None |}.

(** The members of a body with [points], and fields no rule could score. *)
Definition client_points_members : receiptJSON :=
  {| jRetailer := Some "Target"; jPurchaseDate := Some "";
     jPurchaseTime := Some ""; jItems := None;
     jTotal := Some "abc"; jID := None; jPoints := Some 1000000 |}.




(** A receipt on which every rule yields nothing. *)
Definition zero_score : receipt :=
  {| Retailer := "--"; PurchaseDate := "2022-01-02"; PurchaseTime := "13:00";
     Items := []; Total := "1.10"; ID := "z"; Points := 0 |}.

(** A receipt with a price that is no number, on an item whose description
    has two bytes. *)
Definition unparsed_price : receipt :=
  {| Retailer := "Target"; PurchaseDate := "2022-01-02"; PurchaseTime := "13:00";
     Items := [ {| ShortDescription := "ab"; Price := "abc" |} ];
     Total := "1.10"; ID := "u"; Points := 0 |}.

(** Bodies whose date and time are shorter than the layouts, and the
    records [processReceipt] builds from them under the identifiers "d" and
    "t". *)
Definition short_date_body : requestBody :=
  Decodable {| jRetailer := Some "Target"; jPurchaseDate := Some "2022-1-1";
               jPurchaseTime := Some "13:00"; jItems := Some [];
               jTotal := Some "1.10"; jID := None; jPoints := None |}.

Definition short_time_body : requestBody :=
  Decodable {| jRetailer := Some "Target"; jPurchaseDate := Some "2022-01-02";
               jPurchaseTime := Some "9"; jItems := Some [];
               jTotal := Some "1.10"; jID := None; jPoints := None |}.

Definition short_date : receipt :=
  {| Retailer := "Target"; PurchaseDate := "2022-1-1"; PurchaseTime := "13:00";
     Items := []; Total := "1.10"; ID := "d"; Points := 0 |}.

Definition short_time : receipt :=
  {| Retailer := "Target"; PurchaseDate := "2022-01-02"; PurchaseTime := "9";
     Items := []; Total := "1.10"; ID := "t"; Points := 0 |}.

(** A receipt with a price that is no number, on an item whose description
    has three bytes. *)
Definition unparsable_price : receipt :=
  {| Retailer := "Target"; PurchaseDate := "2022-01-02"; PurchaseTime := "13:00";
     Items := [ gatorade; {| ShortDescription := "abc"; Price := "abc" |} ];
     Total := "1.10"; ID := "p"; Points := 0 |}.

(** An item whose description is blank, and one of the same price whose
    description has three bytes. *)
Definition blank_item : item :=
  {| ShortDescription := "   "; Price := "12.00" |}.

Definition three_byte_item : item :=
  {| ShortDescription := "abc"; Price := "12.00" |}.

(** [getPoints] on the installation above. *)
Definition getPoints_amd64 : string -> list receipt -> exit * list receipt :=
  getPoints (go := amd64).

(** ** Notions the properties are stated with *)

(** [r'] is [r] up to its [Points]. *)
Definition same_but_Points (r r' : receipt) : Prop :=
  Retailer r' = Retailer r /\ PurchaseDate r' = PurchaseDate r
  /\ PurchaseTime r' = PurchaseTime r /\ Items r' = Items r
  /\ Total r' = Total r /\ ID r' = ID r.

(** [r] with another time of purchase. *)
Definition set_PurchaseTime (r : receipt) (t : string) : receipt :=
  {| Retailer := Retailer r; PurchaseDate := PurchaseDate r;
     PurchaseTime := t; Items := Items r; Total := Total r;
     ID := ID r; Points := Points r |}.

(** Every byte of [s] satisfies [P]. *)
Fixpoint all_bytes (P : Z -> bool) (s : string) : bool :=
  match s with
  | EmptyString => true
  | String c rest => P (byte_val c) && all_bytes P rest
  end.

(** The response 200 with the points [n]. *)
Definition points_response (n : Z) : response :=
  {| status := StatusOK; body := ReturnPoints n |}.

(** The response 400 with a message. *)
Definition client_error (message : string) : response :=
  {| status := StatusBadRequest; body := Message message |}.

(** ** [getReceipts] *)

(** [getReceipts] answers 200 with the whole slice, in the order of the
    slice, and leaves the slice as it is.  The result is the status, the
    records sent and the slice after the call. *)
Definition getReceipts (receipts : list receipt)
  : Z * list receipt * list receipt :=
  (StatusOK, receipts, receipts).

(** ** What a query answers on a record *)

Section Answers.

Context {go : GoInstallation}.

(** The response of [getPoints] when the lookup finds the record [r]:
    the cached points when they are not 0, the outcome of the computation
    otherwise ([None]: no response, the handler panics). *)
Definition record_response (r : receipt) : option response :=
  if negb (Points r =? 0) then Some (points_response (Points r))
  else match calculate r with
       | Score p => Some (points_response p)
       | Invalid message => Some (client_error message)
       | Panic => None
       end.

(** [r'] is [r], or [r] with the tally of its computation cached. *)
Definition cached_copy (r r' : receipt) : Prop :=
  r' = r
  \/ (Points r = 0 /\ exists p, calculate r = Score p /\ r' = set_Points r p).

(** The test of lines 93: the rune is a letter or a digit. *)
Definition alphanumeric (char : Z) : bool :=
  unicode.IsLetter letterTable char || unicode.IsDigit digitTable char.

(** How many elements of [l] satisfy [f]. *)
Fixpoint count (f : Z -> bool) (l : list Z) : Z :=
  match l with
  | [] => 0
  | x :: rest => (if f x then 1 else 0) + count f rest
  end.

(** The test of line 122 on an item. *)
Definition description_counts (it : item) : bool :=
  Z.rem (len (strings.TrimSpace (ShortDescription it))) 3 =? 0.

(** What one item adds in the loop of lines 121-133, when its price
    parses or is not looked at. *)
Definition itemPoints (it : item) : Z :=
  if description_counts it
  then match strconv.ParseFloat (Price it) with
       | Some priceFloat =>
           int_of_float unrepresentable
             (math.Ceil (float_mul priceFloat float_0_2))
       | None => 0
       end
  else 0.

Definition sum_itemPoints (items : list item) : Z :=
  foldr (fun it acc => itemPoints it + acc) 0 items.

End Answers.

(** The bytes of a string. *)
Fixpoint bytes (s : string) : list Z :=
  match s with
  | EmptyString => []
  | String c rest => byte_val c :: bytes rest
  end.

(** The byte is below [utf8.RuneSelf]. *)
Definition is_ascii (c : Z) : bool := c <? 0x80.

(** The byte is one of [0-9], [A-Z], [a-z]. *)
Definition ascii_alphanumeric (c : Z) : bool :=
  ((0x30 <=? c) && (c <=? 0x39)) || ((0x41 <=? c) && (c <=? 0x5A))
  || ((0x61 <=? c) && (c <=? 0x7A)).

(** Members for the receipt [corner_market]. *)
Definition corner_market_members : receiptJSON :=
  {| jRetailer := Some "M&M Corner Market";
     jPurchaseDate := Some "2022-03-20"; jPurchaseTime := Some "14:33";
     jItems := Some [gatorade; gatorade; gatorade; gatorade];
     jTotal := Some "9.00"; jID := None; jPoints := None |}.

(** [r] with other items. *)
Definition set_Items (r : receipt) (items : list item) : receipt :=
  {| Retailer := Retailer r; PurchaseDate := PurchaseDate r;
     PurchaseTime := PurchaseTime r; Items := items; Total := Total r;
     ID := ID r; Points := Points r |}.

(** The price of the item parses, or its description has a length that is
    no multiple of 3. *)
Definition price_passes (it : item) : Prop :=
  description_counts it = true -> strconv.ParseFloat (Price it) <> None.

(** * Properties *)

(** ** Go's [int] *)

Lemma wrap_int_id (z : Z) : int_min <= z <= int_max -> wrap_int z = z.
Proof.
  unfold wrap_int, int_min, int_max. intros H.
  rewrite Z.mod_small by lia. lia.
Qed.

Lemma wrap_int_range (z : Z) : int_min <= wrap_int z <= int_max.
Proof.
  unfold wrap_int, int_min, int_max.
  pose proof (Z.mod_pos_bound (z + 2 ^ 63) (2 ^ 64)). lia.
Qed.

Lemma int_add_exact (a b : Z) :
  int_min <= a + b <= int_max -> int_add a b = a + b.
Proof. apply wrap_int_id. Qed.

(** ** [getReceiptById] *)

Lemma getReceiptById_Some (receipts : list receipt) (id : string) i r :
  getReceiptById receipts id = Some (i, r) ->
  receipts !! i = Some r /\ ID r = id.
Proof.
  revert i. induction receipts as [|x rest IH]; intros i; simpl.
  - discriminate.
  - destruct (String.eqb (ID x) id) eqn:E.
    + intros [= <- <-]. split; [reflexivity | now apply String.eqb_eq].
    + destruct (getReceiptById rest id) as [[k r']|]; [|discriminate].
      intros [= <- <-]. simpl. apply IH. reflexivity.
Qed.

(** Replacing a record by one with the same ID moves no pointer: a lookup
    finds the same index, and the new record when that is the index
    replaced. *)
Lemma getReceiptById_insert (receipts : list receipt) (id : string) k x y :
  receipts !! k = Some y -> ID x = ID y ->
  getReceiptById (<[k := x]> receipts) id =
  match getReceiptById receipts id with
  | Some (i, r) => Some (i, if Nat.eqb i k then x else r)
  | None => None
  end.
Proof.
  revert k. induction receipts as [|z rest IH]; intros k Hk Hid.
  - discriminate.
  - destruct k as [|k]; simpl in *.
    + injection Hk as ->. rewrite Hid.
      destruct (String.eqb (ID y) id); [reflexivity|].
      destruct (getReceiptById rest id) as [[i r]|]; reflexivity.
    + destruct (String.eqb (ID z) id); [reflexivity|].
      rewrite (IH k Hk Hid).
      destruct (getReceiptById rest id) as [[i r]|]; reflexivity.
Qed.

(** Appending moves no pointer either. *)
Lemma getReceiptById_app_Some (receipts more : list receipt) (id : string) i r :
  getReceiptById receipts id = Some (i, r) ->
  getReceiptById (receipts ++ more)%list id = Some (i, r).
Proof.
  revert i. induction receipts as [|x rest IH]; intros i; simpl.
  - discriminate.
  - destruct (String.eqb (ID x) id); [trivial|].
    destruct (getReceiptById rest id) as [[k r']|]; [|discriminate].
    intros [= <- <-]. rewrite (IH k eq_refl). reflexivity.
Qed.

Lemma getReceiptById_app_None (receipts : list receipt) (id : string) x :
  getReceiptById receipts id = None ->
  getReceiptById (receipts ++ [x])%list id =
  if String.eqb (ID x) id then Some (length receipts, x) else None.
Proof.
  induction receipts as [|y rest IH]; simpl.
  - intros _. destruct (String.eqb (ID x) id); reflexivity.
  - destruct (String.eqb (ID y) id); [discriminate|].
    destruct (getReceiptById rest id) as [[k r']|]; [discriminate|].
    intros _. rewrite (IH eq_refl).
    destruct (String.eqb (ID x) id); reflexivity.
Qed.

Lemma set_Points_same (r : receipt) : set_Points r (Points r) = r.
Proof. destruct r; reflexivity. Qed.

Section Properties.

Context {go : GoInstallation}.

(** The computation reads no [Points]. *)
Lemma calculate_set_Points (r : receipt) (p : Z) :
  calculate (set_Points r p) = calculate r.
Proof. reflexivity. Qed.

(** The ways out of [getPoints], by what the lookup and the computation
    give. *)
Lemma getPoints_not_found id receipts :
  getReceiptById receipts id = None ->
  getPoints id receipts = (exit_not_found, receipts).
Proof. unfold getPoints. now intros ->. Qed.

Lemma getPoints_cached id receipts i r :
  getReceiptById receipts id = Some (i, r) -> Points r <> 0 ->
  getPoints id receipts = (exit_cached (Points r), receipts).
Proof.
  unfold getPoints. intros -> Hp.
  destruct (Z.eqb_spec (Points r) 0); [contradiction | reflexivity].
Qed.

Lemma getPoints_uncached id receipts i r :
  getReceiptById receipts id = Some (i, r) -> Points r = 0 ->
  getPoints id receipts =
  match calculate r with
  | Invalid message => (exit_invalid message, receipts)
  | Panic => (exit_panic, receipts)
  | Score pointTotal =>
      (exit_computed pointTotal, <[i := set_Points r pointTotal]> receipts)
  end.
Proof.
  unfold getPoints. intros -> ->. simpl.
  destruct (calculate r); reflexivity.
Qed.

(** ** Submission *)

(** C7: a submission whose body does not decode into the receipt is
    answered at once with the client error 400, and the slice of receipts
    after the call is the slice before it: nothing is stored. *)
Theorem processReceipt_malformed_stores_nothing
    (newId : string) (b : requestBody) (receipts : list receipt) :
  BindJSON b (set_ID zero_receipt newId) = None ->
  processReceipt newId b receipts =
  ({| status := StatusBadRequest; body := Message "The receipt is invalid" |},
   receipts).
Proof. unfold processReceipt. now intros ->. Qed.

(** An accepted submission appends one record, the decoded one. *)
Lemma processReceipt_accepted
    (newId : string) (b : requestBody) (receipts : list receipt) (r : receipt) :
  BindJSON b (set_ID zero_receipt newId) = Some r ->
  processReceipt newId b receipts =
  ({| status := StatusOK; body := ReturnID newId |}, (receipts ++ [r])%list).
Proof. unfold processReceipt. now intros ->. Qed.

(** Without an [id] member the record stored carries the generated
    identifier, with one it carries the member. *)
Lemma BindJSON_ID (j : receiptJSON) (newId : string) (r : receipt) :
  BindJSON (Decodable j) (set_ID zero_receipt newId) = Some r ->
  ID r = decode_field (jID j) newId.
Proof.
  simpl. destruct (in_int_range _); [|discriminate]. now intros [= <-].
Qed.

(** A body without an [id] member: the identifier returned is the one the
    record is stored and found under, when it is not in use already. *)
Lemma processReceipt_round_trip
    (newId : string) (j : receiptJSON) (receipts : list receipt) (r : receipt) :
  jID j = None ->
  BindJSON (Decodable j) (set_ID zero_receipt newId) = Some r ->
  getReceiptById receipts newId = None ->
  fst (processReceipt newId (Decodable j) receipts)
  = {| status := StatusOK; body := ReturnID newId |}
  /\ getReceiptById (snd (processReceipt newId (Decodable j) receipts)) newId
     = Some (length receipts, r).
Proof.
  intros Hj Hb Hfresh.
  pose proof (BindJSON_ID j newId r Hb) as Hid. rewrite Hj in Hid. simpl in Hid.
  rewrite (processReceipt_accepted _ _ _ _ Hb). simpl. split; [reflexivity|].
  rewrite (getReceiptById_app_None _ _ _ Hfresh), Hid.
  now rewrite String.eqb_refl.
Qed.

(** A body with an [id] member other than the generated identifier: the
    record is stored under the member, and the identifier returned finds
    nothing. *)
Lemma processReceipt_id_member
    (newId c : string) (j : receiptJSON) (receipts : list receipt) (r : receipt) :
  jID j = Some c -> c <> newId ->
  BindJSON (Decodable j) (set_ID zero_receipt newId) = Some r ->
  getReceiptById receipts newId = None ->
  ID r = c
  /\ getPoints newId (snd (processReceipt newId (Decodable j) receipts))
     = (exit_not_found, (receipts ++ [r])%list).
Proof.
  intros Hj Hne Hb Hfresh.
  pose proof (BindJSON_ID j newId r Hb) as Hid. rewrite Hj in Hid. simpl in Hid.
  split; [exact Hid|].
  rewrite (processReceipt_accepted _ _ _ _ Hb). simpl.
  apply getPoints_not_found.
  rewrite (getReceiptById_app_None _ _ _ Hfresh), Hid.
  destruct (String.eqb_spec c newId); [contradiction | reflexivity].
Qed.

(** An identifier that no record carries yields NotFound. *)
Lemma getPoints_unknown (id : string) (receipts : list receipt) :
  (forall r, r ∈ receipts -> ID r <> id) ->
  getPoints id receipts = (exit_not_found, receipts)
  /\ response_of exit_not_found
     = Some {| status := StatusNotFound;
               body := Message "No receipt found for that id" |}.
Proof.
  intros Hno. split; [|reflexivity]. apply getPoints_not_found.
  destruct (getReceiptById receipts id) as [[i r]|] eqn:Hg; [|reflexivity].
  apply getReceiptById_Some in Hg as [Hi Hid].
  exfalso. apply (Hno r); [|exact Hid].
  apply list_elem_of_lookup. now exists i.
Qed.

(** C1, at the input on which the code departs from it: the body carries
    an [id] member.  The submission is accepted and answered with the
    generated identifier, the record is stored under the member's value,
    and the query for the identifier returned finds nothing. *)
Theorem processReceipt_id_member_overrides_generated :
  let newId := "adb6b560-0eef-42bc-9d16-df48f30e89b2" in
  let submitted := processReceipt newId client_id_body [] in
  fst submitted = {| status := StatusOK; body := ReturnID newId |}
  /\ map ID (snd submitted) = ["chosen-by-client"]
  /\ getPoints newId (snd submitted) = (exit_not_found, snd submitted)
  /\ fst (getPoints "chosen-by-client" (snd submitted)) = exit_computed 109.
Proof. vm_compute. repeat split; reflexivity. Qed.

(** ** Queries that cannot be scored *)

Lemma dateRule_short (r : receipt) (pointTotal : Z) :
  len (PurchaseDate r) < 10 -> dateRule r pointTotal = Panic.
Proof.
  intros H. unfold dateRule, slice_checked.
  destruct (Z.leb_spec 10 (len (PurchaseDate r))); [lia|].
  now rewrite andb_false_r.
Qed.

Lemma timeRule_short (r : receipt) (pointTotal : Z) :
  len (PurchaseTime r) < 2 -> timeRule r pointTotal = Panic.
Proof.
  intros H. unfold timeRule, slice_checked.
  destruct (Z.leb_spec 2 (len (PurchaseTime r))); [lia|].
  now rewrite andb_false_r.
Qed.

(** C3, at the inputs on which the code departs from it: a stored date of
    8 bytes and a stored time of 1 byte.  The slice expressions of lines
    136 and 147 panic; the handler writes no response, and none with
    status 400. *)
Theorem getPoints_short_date_or_time_panics :
  snd (processReceipt "d" short_date_body []) = [short_date]
  /\ getPoints "d" [short_date] = (exit_panic, [short_date])
  /\ snd (processReceipt "t" short_time_body []) = [short_time]
  /\ getPoints "t" [short_time] = (exit_panic, [short_time])
  /\ response_of exit_panic = None.
Proof. vm_compute. repeat split; reflexivity. Qed.

(** ** What a query does to the slice *)

(** A query leaves the slice as it is, or writes the tally it computed
    into the record it found, whose [Points] were 0. *)
Lemma getPoints_store id receipts e receipts' :
  getPoints id receipts = (e, receipts') ->
  receipts' = receipts
  \/ exists i r p,
       getReceiptById receipts id = Some (i, r) /\ Points r = 0
       /\ calculate r = Score p /\ e = exit_computed p
       /\ receipts' = <[i := set_Points r p]> receipts.
Proof.
  unfold getPoints.
  destruct (getReceiptById receipts id) as [[i r]|] eqn:Hg.
  - destruct (Z.eqb_spec (Points r) 0) as [Hz|Hz]; simpl.
    + destruct (calculate r) as [p| |] eqn:Hc.
      * intros [= <- <-]. right. exists i, r, p. auto.
      * intros [= <- <-]. now left.
      * intros [= <- <-]. now left.
    + intros [= <- <-]. now left.
  - intros [= <- <-]. now left.
Qed.

(** A record whose [Points] are not 0 is where it was after any request. *)
Lemma serve_keeps_cached (q : request) receipts k r :
  receipts !! k = Some r -> Points r <> 0 -> serve q receipts !! k = Some r.
Proof.
  intros Hk Hp. destruct q as [newId b|id]; simpl.
  - unfold processReceipt. destruct (BindJSON _ _); simpl; [|exact Hk].
    apply lookup_app_l_Some. exact Hk.
  - destruct (getPoints id receipts) as [e receipts'] eqn:Hq. simpl.
    destruct (getPoints_store _ _ _ _ Hq)
      as [->|(i & r0 & p & Hg & Hz & _ & _ & ->)]; [exact Hk|].
    apply getReceiptById_Some in Hg as [Hi _].
    destruct (Nat.eq_dec i k) as [->|Hne].
    + congruence.
    + now rewrite list_lookup_insert_ne.
Qed.

Lemma serve_all_keeps_cached (qs : list request) receipts k r :
  receipts !! k = Some r -> Points r <> 0 -> serve_all qs receipts !! k = Some r.
Proof.
  revert receipts. induction qs as [|q qs IH]; intros receipts Hk Hp; simpl.
  - exact Hk.
  - apply IH; [|exact Hp]. now apply serve_keeps_cached.
Qed.



(** ** Querying twice *)

(** C2, as the code has it: when a query answers with points, the next
    query for the same identifier answers with the same points and leaves
    the slice as the first query left it.  When the points are not 0 the
    second query returns the cached value; when they are 0 the record
    still reads as not computed, and the second query computes the 0
    again. *)
Theorem getPoints_twice id receipts e receipts' points :
  getPoints id receipts = (e, receipts') ->
  response_of e = Some (points_response points) ->
  exists e2,
    getPoints id receipts' = (e2, receipts')
    /\ response_of e2 = Some (points_response points)
    /\ (points <> 0 -> e2 = exit_cached points)
    /\ (points = 0 -> e2 = exit_computed 0).
Proof.
  intros Hq Hr.
  destruct (getReceiptById receipts id) as [[i r]|] eqn:Hg.
  - destruct (Z.eq_dec (Points r) 0) as [Hz|Hnz].
    + rewrite (getPoints_uncached id receipts i r Hg Hz) in Hq.
      destruct (calculate r) as [p| |] eqn:Hc;
        injection Hq as <- <-; try discriminate Hr.
      injection Hr as ->.
      pose proof (getReceiptById_Some _ _ _ _ Hg) as [Hi _].
      assert (Hg' : getReceiptById (<[i := set_Points r points]> receipts) id
                    = Some (i, set_Points r points)).
      { rewrite (getReceiptById_insert receipts id i (set_Points r points) r
                   Hi eq_refl), Hg.
        now rewrite Nat.eqb_refl. }
      destruct (Z.eq_dec points 0) as [->|Hp].
      * assert (Hr0 : set_Points r 0 = r)
          by (rewrite <- Hz; apply set_Points_same).
        exists (exit_computed 0).
        rewrite Hr0, (list_insert_id _ _ _ Hi).
        rewrite (getPoints_uncached id receipts i r Hg Hz), Hc.
        rewrite Hr0, (list_insert_id _ _ _ Hi).
        repeat split; first [reflexivity | congruence].
      * exists (exit_cached points).
        rewrite (getPoints_cached id _ i _ Hg' Hp). simpl.
        repeat split; first [reflexivity | congruence].
    + rewrite (getPoints_cached id receipts i r Hg Hnz) in Hq.
      injection Hq as <- <-. injection Hr as <-.
      exists (exit_cached (Points r)).
      rewrite (getPoints_cached id receipts i r Hg Hnz).
      repeat split; first [reflexivity | congruence].
  - rewrite (getPoints_not_found id receipts Hg) in Hq.
    injection Hq as <- <-. discriminate Hr.
Qed.

(** ** Points sent by the client *)


(** ** The frame of a query *)

(** C10: a query keeps the length of the slice and every field but
    [Points] of every record; it keeps whole every record other than the
    one it found, and every record whose [Points] are not 0.  The slice
    changes only on the way out that stores a computed tally other than
    0, and a record whose [Points] are not 0 after the query stays as it
    is under all later requests: its [Points] are written once. *)
Theorem getPoints_frame id receipts e receipts' :
  getPoints id receipts = (e, receipts') ->
  length receipts' = length receipts
  /\ (forall k r, receipts !! k = Some r ->
        exists r', receipts' !! k = Some r' /\ same_but_Points r r')
  /\ (forall k r, receipts !! k = Some r ->
        (forall r0, getReceiptById receipts id <> Some (k, r0)) ->
        receipts' !! k = Some r)
  /\ (forall k r, receipts !! k = Some r -> Points r <> 0 ->
        receipts' !! k = Some r)
  /\ (receipts' <> receipts -> exists p, e = exit_computed p /\ p <> 0)
  /\ (forall k r' (later : list request),
        receipts' !! k = Some r' -> Points r' <> 0 ->
        serve_all later receipts' !! k = Some r').
Proof.
  intros Hq.
  assert (Hlater : forall k r' (later : list request),
             receipts' !! k = Some r' -> Points r' <> 0 ->
             serve_all later receipts' !! k = Some r').
  { intros k r' later. apply serve_all_keeps_cached. }
  destruct (getPoints_store _ _ _ _ Hq)
    as [->|(i & r0 & p & Hg & Hz & Hc & -> & ->)].
  - repeat split; eauto; try tauto.
    intros k r Hk. exists r. repeat split; auto.
  - pose proof (getReceiptById_Some _ _ _ _ Hg) as [Hi _].
    split; [apply length_insert|].
    split; [|split; [|split; [|split; [|exact Hlater]]]].
    + intros k r Hk. destruct (Nat.eq_dec i k) as [<-|Hne].
      * exists (set_Points r0 p). split.
        -- apply list_lookup_insert_eq. now apply lookup_lt_Some in Hi.
        -- assert (r = r0) as -> by congruence. repeat split.
      * exists r. rewrite list_lookup_insert_ne by exact Hne.
        repeat split; auto.
    + intros k r Hk Hnot. destruct (Nat.eq_dec i k) as [<-|Hne].
      * exfalso. apply (Hnot r0). exact Hg.
      * now rewrite list_lookup_insert_ne.
    + intros k r Hk Hp. destruct (Nat.eq_dec i k) as [<-|Hne].
      * congruence.
      * now rewrite list_lookup_insert_ne.
    + intros Hchanged. exists p. split; [reflexivity|]. intros ->.
      apply Hchanged. rewrite <- Hz, set_Points_same.
      now apply list_insert_id.
Qed.

(** ** Blank descriptions *)

Lemma length_append (s1 s2 : string) :
  String.length (s1 ++ s2) = (String.length s1 + String.length s2)%nat.
Proof. induction s1 as [|c s1 IH]; simpl; [reflexivity | now rewrite IH]. Qed.

Lemma substring_all (s : string) : substring 0 (String.length s) s = s.
Proof. induction s as [|c s IH]; simpl; [reflexivity | now rewrite IH]. Qed.

Lemma slice_suffix (pre s : string) :
  slice (pre ++ s) (len pre) (len (pre ++ s)) = s.
Proof.
  unfold slice, len. rewrite length_append.
  replace (Z.to_nat (Z.of_nat (String.length pre + String.length s)
                     - Z.of_nat (String.length pre)))
    with (String.length s) by lia.
  rewrite Nat2Z.id.
  induction pre as [|c pre IH]; simpl; [apply substring_all | exact IH].
Qed.

Lemma DecodeRuneInString_ascii (c : ascii) (rest : string) :
  byte_val c < 0x80 ->
  utf8.DecodeRuneInString (String c rest) = (byte_val c, 1).
Proof.
  intros H. unfold utf8.DecodeRuneInString.
  assert (Hn : (len (String c rest) <? 1) = false).
  { apply Z.ltb_ge. unfold len. simpl String.length. lia. }
  rewrite Hn.
  assert (Hi : index (String c rest) 0 = byte_val c) by reflexivity.
  rewrite Hi. unfold utf8.first.
  now destruct (Z.ltb_spec (byte_val c) 0x80); [|lia].
Qed.

Lemma asciiSpace_IsSpace (c : Z) :
  strings.asciiSpace c = true -> c < 0x80 /\ unicode.IsSpace c = true.
Proof.
  unfold strings.asciiSpace, unicode.IsSpace, unicode.MaxLatin1. intros H.
  repeat (apply orb_true_iff in H as [H|H]); apply Z.eqb_eq in H; subst;
    split; try lia; reflexivity.
Qed.

Lemma append_cons_shift (pre : string) (c : ascii) (rest : string) :
  pre ++ String c rest = (pre ++ String c "") ++ rest.
Proof. induction pre as [|d pre IH]; simpl; [reflexivity | now rewrite IH]. Qed.

(** On ASCII spaces only, the forward scan finds no rune to stop at. *)
Lemma indexFuncNot_blank (s : string) :
  all_bytes strings.asciiSpace s = true ->
  forall (pre : string) (fuel : nat),
    (String.length s <= fuel)%nat ->
    strings.indexFuncNot fuel unicode.IsSpace (pre ++ s) (len pre) = -1.
Proof.
  induction s as [|c rest IH]; intros Hall pre fuel Hfuel.
  - destruct fuel; simpl; [reflexivity|].
    assert (Hle : (len (pre ++ "") <=? len pre) = true).
    { apply Z.leb_le. unfold len. rewrite length_append. simpl. lia. }
    now rewrite Hle.
  - simpl in Hall. apply andb_true_iff in Hall as [Hc Hrest].
    apply asciiSpace_IsSpace in Hc as [Hlt Hsp].
    destruct fuel as [|fuel]; [simpl in Hfuel; lia|].
    cbn [strings.indexFuncNot].
    assert (Hle : (len (pre ++ String c rest) <=? len pre) = false).
    { apply Z.leb_gt. unfold len. rewrite length_append. simpl. lia. }
    rewrite Hle, slice_suffix, (DecodeRuneInString_ascii c rest Hlt), Hsp.
    simpl negb. cbv iota.
    rewrite append_cons_shift.
    replace (len pre + 1) with (len (pre ++ String c "")).
    + apply IH; [exact Hrest | simpl in Hfuel; lia].
    + unfold len. rewrite length_append. simpl. lia.
Qed.

(** A description of ASCII spaces only, the empty one included, trims to
    the empty string. *)
Lemma TrimSpace_blank (s : string) :
  all_bytes strings.asciiSpace s = true -> strings.TrimSpace s = "".
Proof.
  intros Hall. unfold strings.TrimSpace, strings.TrimFunc, strings.TrimLeftFunc.
  pose proof (indexFuncNot_blank s Hall "" (String.length s) (Nat.le_refl _))
    as H.
  simpl in H. change (len "") with 0 in H. rewrite H. reflexivity.
Qed.

(** ** The rules on the items *)

(** The loop stops at an item whose description has a length that is a
    multiple of 3 and whose price does not parse, wherever it stands. *)
Lemma itemsLoop_unparsable (items : list item) (pointTotal : Z) (it : item) :
  it ∈ items ->
  Z.rem (len (strings.TrimSpace (ShortDescription it))) 3 = 0 ->
  strconv.ParseFloat (Price it) = None ->
  itemsLoop items pointTotal = None.
Proof.
  intros Hin Hlen Hprice. revert pointTotal.
  induction items as [|x rest IH]; intros pointTotal.
  - now apply elem_of_nil in Hin.
  - apply elem_of_cons in Hin as [<-|Hin]; simpl.
    + now rewrite Hlen, Hprice.
    + destruct (Z.rem _ 3 =? 0); [|now apply IH].
      destruct (strconv.ParseFloat (Price x)); [now apply IH | reflexivity].
Qed.

(** The price of an item whose description has another length is not
    looked at. *)
Lemma itemsLoop_skips (it : item) (rest : list item) (pointTotal : Z) :
  Z.rem (len (strings.TrimSpace (ShortDescription it))) 3 <> 0 ->
  itemsLoop (it :: rest) pointTotal = itemsLoop rest pointTotal.
Proof.
  intros H. simpl. now destruct (Z.eqb_spec (Z.rem (len (strings.TrimSpace
    (ShortDescription it))) 3) 0).
Qed.

(** C4, as the code has it: on a stored receipt without cached points
    whose total parses, a price that does not parse on an item whose
    trimmed description has a length that is a multiple of 3 ends the query
    with the client error 400 "invalid item price(s)"; no tally is
    returned and the slice is left as it was. *)
Theorem getPoints_unparsable_price id receipts i r it :
  getReceiptById receipts id = Some (i, r) -> Points r = 0 ->
  strconv.ParseFloat (Total r) <> None ->
  it ∈ Items r ->
  Z.rem (len (strings.TrimSpace (ShortDescription it))) 3 = 0 ->
  strconv.ParseFloat (Price it) = None ->
  getPoints id receipts
  = (exit_invalid "Unable to calculate points (invalid item price(s))",
     receipts)
  /\ response_of (fst (getPoints id receipts))
     = Some (client_error "Unable to calculate points (invalid item price(s))").
Proof.
  intros Hg Hz Htotal Hin Hlen Hprice.
  assert (Hc : calculate r
               = Invalid "Unable to calculate points (invalid item price(s))").
  { unfold calculate, bind, retailerRule, totalRules.
    destruct (strconv.ParseFloat (Total r)); [|contradiction].
    unfold itemRules.
    now rewrite (itemsLoop_unparsable _ _ it Hin Hlen Hprice). }
  rewrite (getPoints_uncached id receipts i r Hg Hz), Hc. now split.
Qed.

(** C6: an item whose description trims to length 0 gets the bonus of a
    description whose length is a multiple of 3: the loop goes on with the
    tally increased by [int(math.Ceil(priceFloat * .2))], as it does for
    any item [it'] of the same price whose trimmed description has a
    length that is a multiple of 3. *)
Theorem blank_description_bonus
    (it it' : item) (rest : list item) (pointTotal : Z) (priceFloat : float64) :
  len (strings.TrimSpace (ShortDescription it)) = 0 ->
  strconv.ParseFloat (Price it) = Some priceFloat ->
  Z.rem (len (strings.TrimSpace (ShortDescription it'))) 3 = 0 ->
  Price it' = Price it ->
  itemsLoop (it :: rest) pointTotal
  = itemsLoop rest
      (int_add pointTotal
         (int_of_float unrepresentable
            (math.Ceil (float_mul priceFloat float_0_2))))
  /\ itemsLoop (it :: rest) pointTotal = itemsLoop (it' :: rest) pointTotal.
Proof.
  intros H0 Hprice H3 Hsame. simpl.
  rewrite H0, H3, Hsame, Hprice. simpl. now split.
Qed.

(** ** The rules on the total *)

(** C9: on a receipt whose total is "9.00" the round-dollar rule adds 50
    and the quarter rule adds 25, each with Go's addition on [int]; the two
    rules together take a tally [pointTotal] to [pointTotal + 75] (there
    is no wrap-around from a tally between 0 and [int_max - 75]). *)
Theorem total_9_00_adds_75 (r : receipt) :
  Total r = "9.00" ->
  exists totalFloat : float64,
    strconv.ParseFloat (Total r) = Some totalFloat
    /\ (forall pointTotal,
          roundDollar totalFloat pointTotal = int_add pointTotal 50)
    /\ (forall pointTotal,
          quarterMultiple totalFloat pointTotal = int_add pointTotal 25)
    /\ (forall pointTotal,
          totalRules r pointTotal
          = Score (int_add (int_add pointTotal 50) 25))
    /\ (forall pointTotal,
          0 <= pointTotal <= int_max - 75 ->
          totalRules r pointTotal = Score (pointTotal + 75)).
Proof.
  intros Ht.
  assert (Hp : strconv.ParseFloat "9.00"
               = Some (S754_finite false 5066549580791808 (-49)))
    by (vm_compute; reflexivity).
  exists (S754_finite false 5066549580791808 (-49)).
  assert (H50 : forall pointTotal,
             roundDollar (S754_finite false 5066549580791808 (-49)) pointTotal
             = int_add pointTotal 50).
  { intros pointTotal. unfold roundDollar.
    now replace (float_eq _ float_zero) with true by (vm_compute; reflexivity). }
  assert (H25 : forall pointTotal,
             quarterMultiple (S754_finite false 5066549580791808 (-49))
               pointTotal = int_add pointTotal 25).
  { intros pointTotal. unfold quarterMultiple.
    now replace (float_eq _ float_zero) with true by (vm_compute; reflexivity). }
  assert (Hall : forall pointTotal,
             totalRules r pointTotal
             = Score (int_add (int_add pointTotal 50) 25)).
  { intros pointTotal. unfold totalRules. now rewrite Ht, Hp, H50, H25. }
  split; [now rewrite Ht|]. split; [exact H50|]. split; [exact H25|].
  split; [exact Hall|].
  intros pointTotal Hrange. rewrite Hall.
  assert (Hmax : int_max = 9223372036854775807) by reflexivity.
  assert (Hmin : int_min = -9223372036854775808) by reflexivity.
  rewrite (int_add_exact pointTotal 50) by lia.
  rewrite int_add_exact by lia. f_equal. lia.
Qed.

(** ** The rule on the time of purchase *)

Lemma calculate_split (r : receipt) :
  calculate r = bind (tallyBeforeTime r) (timeRule r).
Proof.
  unfold calculate, tallyBeforeTime, bind, retailerRule.
  destruct (totalRules r _); try reflexivity.
  destruct (itemRules r _); reflexivity.
Qed.

(** Two times with the same first two bytes score the same. *)
Lemma calculate_minutes_irrelevant (r : receipt) (t1 t2 : string) :
  slice_checked t1 0 2 = slice_checked t2 0 2 ->
  calculate (set_PurchaseTime r t1) = calculate (set_PurchaseTime r t2).
Proof.
  intros H. rewrite !calculate_split.
  change (tallyBeforeTime (set_PurchaseTime r t1)) with (tallyBeforeTime r).
  change (tallyBeforeTime (set_PurchaseTime r t2)) with (tallyBeforeTime r).
  destruct (tallyBeforeTime r); simpl; try reflexivity.
  unfold timeRule. simpl. now rewrite H.
Qed.

(** C8: when the first two bytes of the time parse as [hourInt], the
    rule on the time adds 10 to the tally reached before it when
    [hourInt] is 14 or 15 and leaves the tally as it is otherwise; the
    bytes after the first two are not looked at.  On "14:00" and "15:59"
    it adds 10, on "13:59" and "16:00" nothing. *)
Theorem afternoon_bonus (r : receipt) (pointTotal : Z) :
  tallyBeforeTime r = Score pointTotal ->
  (forall (hh : string) (hourInt : Z),
      slice_checked (PurchaseTime r) 0 2 = Some hh ->
      strconv.Atoi hh = Some hourInt ->
      calculate r
      = Score (if (hourInt =? 14) || (hourInt =? 15)
               then int_add pointTotal 10 else pointTotal))
  /\ (PurchaseTime r = "14:00" -> calculate r = Score (int_add pointTotal 10))
  /\ (PurchaseTime r = "13:59" -> calculate r = Score pointTotal)
  /\ (PurchaseTime r = "15:59" -> calculate r = Score (int_add pointTotal 10))
  /\ (PurchaseTime r = "16:00" -> calculate r = Score pointTotal).
Proof.
  intros Ht. rewrite calculate_split, Ht. simpl. unfold timeRule.
  split; [|repeat split; intros ->; reflexivity].
  intros hh hourInt -> ->. reflexivity.
Qed.

End Properties.

(** * The properties at concrete receipts *)

Lemma processReceipt_malformed_stores_nothing_witness :
  processReceipt "adb6b560-0eef-42bc-9d16-df48f30e89b2" Undecodable
    [corner_market]
  = ({| status := StatusBadRequest; body := Message "The receipt is invalid" |},
     [corner_market]).
Proof.
  apply processReceipt_malformed_stores_nothing. reflexivity.
Defined.

(** The receipt [zero_score] scores 0: the first query computes 0 and
    answers with it, and the second query computes it again instead of
    leaving through the cached return. *)
Lemma zero_points_computed_again :
  let first := getPoints_amd64 "z" [zero_score] in
  let second := getPoints_amd64 "z" (snd first) in
  response_of (fst first) = Some (points_response 0)
  /\ fst second = exit_computed 0
  /\ fst second <> exit_cached 0.
Proof. vm_compute. repeat split; try reflexivity. discriminate. Qed.

Lemma getPoints_twice_witness :
  exists e2,
    getPoints_amd64 "adb6b560-0eef-42bc-9d16-df48f30e89b2"
      [set_Points corner_market 109]
    = (e2, [set_Points corner_market 109])
    /\ response_of e2 = Some (points_response 109)
    /\ (109 <> 0 -> e2 = exit_cached 109)
    /\ (109 = 0 -> e2 = exit_computed 0).
Proof.
  apply (getPoints_twice (go := amd64)
           "adb6b560-0eef-42bc-9d16-df48f30e89b2" [corner_market]
           (exit_computed 109)).
  - vm_compute. reflexivity.
  - reflexivity.
Defined.



Lemma getPoints_frame_witness :
  let id := "adb6b560-0eef-42bc-9d16-df48f30e89b2" in
  let receipts := [zero_score; corner_market] in
  let receipts' := [zero_score; set_Points corner_market 109] in
  getPoints_amd64 id receipts = (exit_computed 109, receipts')
  /\ length receipts' = length receipts
  /\ (forall k r, receipts !! k = Some r ->
        exists r', receipts' !! k = Some r' /\ same_but_Points r r')
  /\ (forall k r, receipts !! k = Some r ->
        (forall r0, getReceiptById receipts id <> Some (k, r0)) ->
        receipts' !! k = Some r)
  /\ (forall k r, receipts !! k = Some r -> Points r <> 0 ->
        receipts' !! k = Some r)
  /\ (receipts' <> receipts ->
      exists p, exit_computed 109 = exit_computed p /\ p <> 0)
  /\ (forall k r' (later : list request),
        receipts' !! k = Some r' -> Points r' <> 0 ->
        serve_all (go := amd64) later receipts' !! k
        = Some r').
Proof.
  split.
  - vm_compute. reflexivity.
  - apply (getPoints_frame (go := amd64)
             "adb6b560-0eef-42bc-9d16-df48f30e89b2"
             [zero_score; corner_market] (exit_computed 109)
             [zero_score; set_Points corner_market 109]).
    vm_compute. reflexivity.
Defined.

(** The receipt [unparsed_price] has a total that parses and an item
    whose price does not; its description has two bytes, the price is not
    looked at, and the query answers 200 with the 6 points of the
    retailer's name. *)
Lemma unparsed_price_is_scored :
  strconv.ParseFloat (Total unparsed_price) <> None
  /\ (exists it, it ∈ Items unparsed_price
                 /\ strconv.ParseFloat (Price it) = None)
  /\ Points unparsed_price = 0
  /\ response_of (fst (getPoints_amd64 "u" [unparsed_price]))
     = Some (points_response 6)
  /\ snd (getPoints_amd64 "u" [unparsed_price])
     = [set_Points unparsed_price 6].
Proof.
  split; [vm_compute; discriminate|].
  split.
  - exists {| ShortDescription := "ab"; Price := "abc" |}.
    split; [apply list_elem_of_here | vm_compute; reflexivity].
  - vm_compute. repeat split; reflexivity.
Qed.

Lemma getPoints_unparsable_price_witness :
  getPoints_amd64 "p" [unparsable_price]
  = (exit_invalid "Unable to calculate points (invalid item price(s))",
     [unparsable_price])
  /\ response_of (fst (getPoints_amd64 "p" [unparsable_price]))
     = Some (client_error "Unable to calculate points (invalid item price(s))").
Proof.
  apply (getPoints_unparsable_price (go := amd64)
           "p" [unparsable_price] O unparsable_price
           {| ShortDescription := "abc"; Price := "abc" |}).
  - reflexivity.
  - reflexivity.
  - vm_compute. discriminate.
  - apply list_elem_of_further, list_elem_of_here.
  - vm_compute. reflexivity.
  - vm_compute. reflexivity.
Defined.

Lemma blank_description_bonus_witness :
  strings.TrimSpace (ShortDescription blank_item) = ""
  /\ (itemsLoop (go := amd64) [blank_item] 0 = Some 3
      /\ itemsLoop (go := amd64) [blank_item] 0
         = itemsLoop (go := amd64) [three_byte_item] 0).
Proof.
  split; [vm_compute; reflexivity|].
  apply (blank_description_bonus (go := amd64) blank_item
           three_byte_item [] 0 (S754_finite false 6755399441055744 (-49))).
  - vm_compute. reflexivity.
  - vm_compute. reflexivity.
  - vm_compute. reflexivity.
  - reflexivity.
Defined.

Lemma total_9_00_adds_75_witness :
  exists totalFloat : float64,
    strconv.ParseFloat (Total corner_market) = Some totalFloat
    /\ (forall pointTotal,
          roundDollar totalFloat pointTotal = int_add pointTotal 50)
    /\ (forall pointTotal,
          quarterMultiple totalFloat pointTotal = int_add pointTotal 25)
    /\ (forall pointTotal,
          totalRules corner_market pointTotal
          = Score (int_add (int_add pointTotal 50) 25))
    /\ (forall pointTotal,
          0 <= pointTotal <= int_max - 75 ->
          totalRules corner_market pointTotal = Score (pointTotal + 75)).
Proof.
  apply (total_9_00_adds_75 corner_market). reflexivity.
Defined.

Lemma afternoon_bonus_witness :
  tallyBeforeTime (go := amd64) corner_market
  = Score 99
  /\ calculate (go := amd64) corner_market
     = Score 109.
Proof.
  split; [vm_compute; reflexivity|].
  apply (proj1 (afternoon_bonus (go := amd64)
                  corner_market 99 eq_refl) "14" 14); reflexivity.
Defined.

(** * Further properties of the handlers *)

Section Store.

Context {go : GoInstallation}.

(** ** Lookup *)

(** No record before the one found carries the identifier. *)
Lemma getReceiptById_least (receipts : list receipt) (id : string) i r :
  getReceiptById receipts id = Some (i, r) ->
  forall j r', (j < i)%nat -> receipts !! j = Some r' -> ID r' <> id.
Proof.
  revert i. induction receipts as [|x rest IH]; intros i; simpl.
  - discriminate.
  - destruct (String.eqb_spec (ID x) id) as [He|Hne].
    + intros [= <- <-] j r' Hj. lia.
    + destruct (getReceiptById rest id) as [[k r0]|] eqn:Hg; [|discriminate].
      intros [= <- <-] j r' Hj Hl. destruct j as [|j]; simpl in Hl.
      * now injection Hl as <-.
      * apply (IH k eq_refl j r'); [lia | exact Hl].
Qed.

Lemma getReceiptById_None (receipts : list receipt) (id : string) :
  getReceiptById receipts id = None ->
  forall r, r ∈ receipts -> ID r <> id.
Proof.
  induction receipts as [|x rest IH]; simpl; intros Hg r Hin.
  - now apply elem_of_nil in Hin.
  - destruct (String.eqb_spec (ID x) id) as [He|Hne]; [discriminate|].
    destruct (getReceiptById rest id) as [[k r0]|] eqn:Hg'; [discriminate|].
    apply elem_of_cons in Hin as [->|Hin]; [exact Hne | now apply IH].
Qed.

(** X1: [getReceiptById] finds the first record that carries the
    identifier, at the least index [i], and returns the record at [i]; it
    fails exactly when no record of the slice carries the identifier. *)
Theorem getReceiptById_first_match (receipts : list receipt) (id : string) :
  match getReceiptById receipts id with
  | Some (i, r) =>
      receipts !! i = Some r /\ ID r = id
      /\ forall j r', (j < i)%nat -> receipts !! j = Some r' -> ID r' <> id
  | None => forall r, r ∈ receipts -> ID r <> id
  end.
Proof.
  destruct (getReceiptById receipts id) as [[i r]|] eqn:Hg.
  - destruct (getReceiptById_Some _ _ _ _ Hg) as [Hi Hid].
    repeat split; [exact Hi | exact Hid|].
    exact (getReceiptById_least _ _ _ _ Hg).
  - exact (getReceiptById_None _ _ Hg).
Qed.

(** ** Submissions *)

(** X2: a submission never touches what is stored: it is either rejected
    with 400 and the slice is the same, or accepted with 200 and the slice
    is the old one with one record appended.  Either way every record
    stays at its index, and every identifier that was found before is
    found at the same index with the same record: a new record cannot
    take over an identifier in use. *)
Theorem processReceipt_keeps_records
    (newId : string) (b : requestBody) (receipts : list receipt) :
  let resp := fst (processReceipt newId b receipts) in
  let receipts' := snd (processReceipt newId b receipts) in
  ((status resp = StatusBadRequest /\ receipts' = receipts)
   \/ (status resp = StatusOK /\ body resp = ReturnID newId
       /\ exists r, receipts' = (receipts ++ [r])%list))
  /\ (forall k r, receipts !! k = Some r -> receipts' !! k = Some r)
  /\ (forall id i r,
        getReceiptById receipts id = Some (i, r) ->
        getReceiptById receipts' id = Some (i, r)).
Proof.
  unfold processReceipt.
  destruct (BindJSON b (set_ID zero_receipt newId)) as [r|]; simpl.
  - split; [right; eauto|]. split.
    + intros k r0. apply lookup_app_l_Some.
    + intros id i r0. apply getReceiptById_app_Some.
  - split; [now left|]. split; auto.
Qed.

(** X3: submitting a body without [id] member and without points, under
    a generated identifier not in use, and then querying the identifier
    returned runs the computation on the record built from the body: the
    query answers with the tally and caches it on the record appended, or
    answers with the computation's error and leaves the record as
    stored. *)
Theorem submit_then_query
    (newId : string) (j : receiptJSON) (receipts : list receipt) (r : receipt) :
  jID j = None ->
  BindJSON (Decodable j) (set_ID zero_receipt newId) = Some r ->
  Points r = 0 ->
  getReceiptById receipts newId = None ->
  getPoints newId (snd (processReceipt newId (Decodable j) receipts))
  = match calculate r with
    | Score p => (exit_computed p, (receipts ++ [set_Points r p])%list)
    | Invalid message => (exit_invalid message, (receipts ++ [r])%list)
    | Panic => (exit_panic, (receipts ++ [r])%list)
    end.
Proof.
  intros Hj Hb Hz Hfresh.
  destruct (processReceipt_round_trip newId j receipts r Hj Hb Hfresh)
    as [_ Hg].
  rewrite (getPoints_uncached _ _ _ _ Hg Hz).
  rewrite (processReceipt_accepted _ _ _ _ Hb). simpl.
  destruct (calculate r); try reflexivity.
  f_equal. rewrite insert_app_r_alt by lia.
  now rewrite Nat.sub_diag.
Qed.

(** ** Requests one after the other *)

Lemma getPoints_response (id : string) (receipts : list receipt) i r :
  getReceiptById receipts id = Some (i, r) ->
  response_of (fst (getPoints id receipts)) = record_response r.
Proof.
  intros Hg. unfold getPoints, record_response. rewrite Hg.
  destruct (negb (Points r =? 0)); [reflexivity|].
  destruct (calculate r); reflexivity.
Qed.

Lemma cached_copy_response (r r' : receipt) :
  cached_copy r r' -> record_response r' = record_response r.
Proof.
  intros [->|(Hz & p & Hc & ->)]; [reflexivity|].
  unfold record_response. rewrite calculate_set_Points, Hz, Hc. simpl.
  destruct (Z.eqb_spec p 0) as [->|Hp]; reflexivity.
Qed.

Lemma cached_copy_trans (r r' r'' : receipt) :
  cached_copy r r' -> cached_copy r' r'' -> cached_copy r r''.
Proof.
  intros [->|(Hz & p & Hc & ->)] H'; [exact H'|].
  destruct H' as [->|(Hz' & p' & Hc' & ->)].
  - right. eauto.
  - simpl in Hz'. subst p. rewrite calculate_set_Points in Hc'.
    right. split; [exact Hz|]. exists p'. split; [exact Hc'|].
    reflexivity.
Qed.

(** A request keeps every identifier that is found at its index, with
    its record or the record with its tally cached. *)
Lemma serve_keeps_found (q : request) (receipts : list receipt) id i r :
  getReceiptById receipts id = Some (i, r) ->
  exists r', getReceiptById (serve q receipts) id = Some (i, r')
             /\ cached_copy r r'.
Proof.
  intros Hg. destruct q as [newId b|id']; simpl.
  - exists r. split; [|now left].
    unfold processReceipt. destruct (BindJSON _ _); simpl; [|exact Hg].
    now apply getReceiptById_app_Some.
  - destruct (getPoints id' receipts) as [e receipts'] eqn:Hq. simpl.
    destruct (getPoints_store _ _ _ _ Hq)
      as [->|(i' & r0 & p & Hg' & Hz & Hc & _ & ->)].
    + exists r. split; [exact Hg | now left].
    + pose proof (getReceiptById_Some _ _ _ _ Hg') as [Hi' _].
      pose proof (getReceiptById_Some _ _ _ _ Hg) as [Hi _].
      rewrite (getReceiptById_insert receipts id i' (set_Points r0 p) r0
                 Hi' eq_refl), Hg.
      destruct (Nat.eqb_spec i i') as [->|Hne].
      * assert (r0 = r) as -> by congruence.
        exists (set_Points r p). split; [reflexivity|]. right. eauto.
      * exists r. split; [reflexivity | now left].
Qed.

Lemma serve_all_keeps_found
    (qs : list request) (receipts : list receipt) id i r :
  getReceiptById receipts id = Some (i, r) ->
  exists r', getReceiptById (serve_all qs receipts) id = Some (i, r')
             /\ cached_copy r r'.
Proof.
  revert receipts r. induction qs as [|q qs IH]; intros receipts r Hg; simpl.
  - exists r. split; [exact Hg | now left].
  - destruct (serve_keeps_found q receipts id i r Hg) as (r1 & Hg1 & Hc1).
    destruct (IH _ _ Hg1) as (r2 & Hg2 & Hc2).
    exists r2. split; [exact Hg2|]. now apply (cached_copy_trans r r1 r2).
Qed.

(** X4: once an identifier is found, the response to a query for it is
    settled: after any later requests (submissions, queries for this or
    other identifiers) the query gives the response it gives now, the
    same points or the same error. *)
Theorem getPoints_response_settled
    (id : string) (receipts : list receipt) (later : list request) :
  getReceiptById receipts id <> None ->
  response_of (fst (getPoints id (serve_all later receipts)))
  = response_of (fst (getPoints id receipts)).
Proof.
  intros Hfound.
  destruct (getReceiptById receipts id) as [[i r]|] eqn:Hg; [|contradiction].
  destruct (serve_all_keeps_found later receipts id i r Hg) as (r' & Hg' & Hc).
  rewrite (getPoints_response _ _ _ _ Hg'), (getPoints_response _ _ _ _ Hg).
  now apply cached_copy_response.
Qed.

(** A request keeps every record at its index, up to its [Points]. *)
Lemma serve_keeps_index (q : request) (receipts : list receipt) k r :
  receipts !! k = Some r ->
  exists r', serve q receipts !! k = Some r' /\ same_but_Points r r'.
Proof.
  intros Hk. destruct q as [newId b|id]; simpl.
  - exists r. split; [|repeat split].
    unfold processReceipt. destruct (BindJSON _ _); simpl; [|exact Hk].
    now apply lookup_app_l_Some.
  - destruct (getPoints id receipts) as [e receipts'] eqn:Hq. simpl.
    destruct (getPoints_store _ _ _ _ Hq)
      as [->|(i & r0 & p & Hg & _ & _ & _ & ->)].
    + exists r. split; [exact Hk | repeat split].
    + pose proof (getReceiptById_Some _ _ _ _ Hg) as [Hi _].
      destruct (Nat.eq_dec i k) as [->|Hne].
      * assert (r0 = r) as -> by congruence.
        exists (set_Points r p). split; [|repeat split].
        apply list_lookup_insert_eq. now apply lookup_lt_Some in Hk.
      * exists r. rewrite list_lookup_insert_ne by exact Hne.
        split; [exact Hk | repeat split].
Qed.

Lemma same_but_Points_trans (r r' r'' : receipt) :
  same_but_Points r r' -> same_but_Points r' r'' -> same_but_Points r r''.
Proof.
  unfold same_but_Points. intros (?&?&?&?&?&?) (?&?&?&?&?&?).
  repeat split; congruence.
Qed.

Lemma serve_all_keeps_index
    (qs : list request) (receipts : list receipt) k r :
  receipts !! k = Some r ->
  exists r', serve_all qs receipts !! k = Some r' /\ same_but_Points r r'.
Proof.
  revert receipts r. induction qs as [|q qs IH]; intros receipts r Hk; simpl.
  - exists r. split; [exact Hk | repeat split].
  - destruct (serve_keeps_index q receipts k r Hk) as (r1 & Hk1 & Hs1).
    destruct (IH _ _ Hk1) as (r2 & Hk2 & Hs2).
    exists r2. split; [exact Hk2|]. now apply (same_but_Points_trans r r1 r2).
Qed.

Lemma serve_length (q : request) (receipts : list receipt) :
  (length receipts <= length (serve q receipts))%nat.
Proof.
  destruct q as [newId b|id]; simpl.
  - unfold processReceipt. destruct (BindJSON _ _); simpl; [|lia].
    rewrite length_app. simpl. lia.
  - destruct (getPoints id receipts) as [e receipts'] eqn:Hq. simpl.
    destruct (getPoints_store _ _ _ _ Hq)
      as [->|(i & r0 & p & _ & _ & _ & _ & ->)]; [lia|].
    rewrite length_insert. lia.
Qed.

Lemma serve_all_length (qs : list request) (receipts : list receipt) :
  (length receipts <= length (serve_all qs receipts))%nat.
Proof.
  revert receipts. induction qs as [|q qs IH]; intros receipts; simpl; [lia|].
  etransitivity; [apply (serve_length q) | apply IH].
Qed.

(** X6: [getReceipts] answers 200 with the slice and leaves it as it is,
    and what it lists only grows: after any requests every record listed
    before is listed at the same position with the same fields up to
    [Points], and with the same [Points] once they are not 0.  No request
    removes or reorders records. *)
Theorem getReceipts_only_grows
    (receipts : list receipt) (later : list request) :
  let listed := snd (fst (getReceipts receipts)) in
  let listed' := snd (fst (getReceipts (serve_all later receipts))) in
  fst (fst (getReceipts receipts)) = StatusOK
  /\ listed = receipts
  /\ snd (getReceipts receipts) = receipts
  /\ (length listed <= length listed')%nat
  /\ forall k r, listed !! k = Some r ->
       exists r', listed' !! k = Some r' /\ same_but_Points r r'
                  /\ (Points r <> 0 -> r' = r).
Proof.
  simpl. repeat split.
  - apply serve_all_length.
  - intros k r Hk.
    destruct (serve_all_keeps_index later _ _ _ Hk) as (r' & Hk' & Hs).
    exists r'. split; [exact Hk'|]. split; [exact Hs|].
    intros Hp. pose proof (serve_all_keeps_cached later _ _ _ Hk Hp).
    congruence.
Qed.

(** X5: a record stored under an identifier that an earlier record
    carries is out of reach: no request ever writes it, it stays as it was
    stored. *)
Theorem shadowed_record_never_written
    (receipts : list receipt) (j k : nat) (r0 x : receipt)
    (later : list request) :
  receipts !! j = Some r0 -> receipts !! k = Some x ->
  (j < k)%nat -> ID r0 = ID x ->
  serve_all later receipts !! k = Some x
  /\ (forall i r, getReceiptById (serve_all later receipts) (ID x) = Some (i, r) ->
       (i < k)%nat).
Proof.
  intros Hj Hk Hlt Hid.
  assert (Hinv : forall qs rs,
             (exists r1, rs !! j = Some r1 /\ ID r1 = ID x) ->
             rs !! k = Some x ->
             (exists r1, serve_all qs rs !! j = Some r1 /\ ID r1 = ID x)
             /\ serve_all qs rs !! k = Some x).
  { induction qs as [|q qs IH]; intros rs Hj' Hk'; simpl; [now split|].
    apply IH.
    - destruct Hj' as (r1 & Hj1 & Hid1).
      destruct (serve_keeps_index q rs j r1 Hj1) as (r2 & Hj2 & Hs).
      exists r2. split; [exact Hj2|].
      destruct Hs as (_&_&_&_&_&Hs). congruence.
    - destruct q as [newId b|id]; simpl.
      + unfold processReceipt. destruct (BindJSON _ _); simpl; [|exact Hk'].
        now apply lookup_app_l_Some.
      + destruct (getPoints id rs) as [e rs'] eqn:Hq. simpl.
        destruct (getPoints_store _ _ _ _ Hq)
          as [->|(i & r1 & p & Hg & _ & _ & _ & ->)]; [exact Hk'|].
        pose proof (getReceiptById_Some _ _ _ _ Hg) as [Hi Hidi].
        destruct (Nat.eq_dec i k) as [->|Hne].
        * exfalso. destruct Hj' as (r2 & Hj2 & Hid2).
          assert (r1 = x) as -> by congruence.
          apply (getReceiptById_least _ _ _ _ Hg j r2 Hlt Hj2). congruence.
        * now rewrite list_lookup_insert_ne. }
  destruct (Hinv later receipts) as [(r1 & Hj1 & Hid1) Hk1]; [eauto | exact Hk|].
  split; [exact Hk1|].
  intros i r Hg. destruct (Nat.lt_ge_cases i k) as [H|H]; [exact H|].
  exfalso. destruct (Nat.eq_dec i k) as [->|Hne].
  - apply (getReceiptById_least _ _ _ _ Hg j r1 Hlt Hj1). exact Hid1.
  - apply (getReceiptById_least _ _ _ _ Hg j r1); [lia | exact Hj1 | exact Hid1].
Qed.

End Store.

Section Scoring.

Context {go : GoInstallation}.

(** ** Go's addition on [int] *)

Lemma wrap_int_add_l (a b : Z) : wrap_int (wrap_int a + b) = wrap_int (a + b).
Proof.
  unfold wrap_int. f_equal.
  replace ((a + 2 ^ 63) mod 2 ^ 64 - 2 ^ 63 + b + 2 ^ 63)
    with ((a + 2 ^ 63) mod 2 ^ 64 + b) by lia.
  rewrite Zplus_mod_idemp_l. f_equal; lia.
Qed.

Lemma wrap_int_add_r (a b : Z) : wrap_int (a + wrap_int b) = wrap_int (a + b).
Proof. rewrite Z.add_comm, wrap_int_add_l. f_equal; lia. Qed.

Lemma int_add_wrap (z c : Z) : int_add (wrap_int z) c = wrap_int (z + c).
Proof. apply wrap_int_add_l. Qed.

Lemma int_add_swap (pt a b : Z) :
  int_add (int_add pt a) b = int_add (int_add pt b) a.
Proof.
  unfold int_add. rewrite !wrap_int_add_l. f_equal; lia.
Qed.

(** ** The loop over the items *)

Lemma itemsLoop_cons (it : item) (rest : list item) (pointTotal : Z) :
  itemsLoop (it :: rest) pointTotal
  = if description_counts it
    then match strconv.ParseFloat (Price it) with
         | None => None
         | Some _ => itemsLoop rest (int_add pointTotal (itemPoints it))
         end
    else itemsLoop rest pointTotal.
Proof.
  simpl. unfold itemPoints, description_counts.
  destruct (Z.rem _ 3 =? 0); [|reflexivity].
  destruct (strconv.ParseFloat (Price it)); reflexivity.
Qed.

(** The loop ends with a tally exactly when every price it looks at
    parses. *)
Lemma itemsLoop_Some_iff (items : list item) (pointTotal : Z) :
  itemsLoop items pointTotal <> None <-> Forall price_passes items.
Proof.
  revert pointTotal. induction items as [|it rest IH]; intros pointTotal.
  - simpl. split; [constructor | discriminate].
  - rewrite itemsLoop_cons, Forall_cons. unfold price_passes at 1.
    destruct (description_counts it).
    + destruct (strconv.ParseFloat (Price it)) as [f|].
      * rewrite IH. split; [intros H; split; [discriminate | exact H] | tauto].
      * split; [congruence | intros [H _]; exfalso; now apply H].
    + rewrite IH. split; [intros H; split; [discriminate | exact H] | tauto].
Qed.

Lemma itemsLoop_sum (items : list item) (z s : Z) :
  itemsLoop items (wrap_int z) = Some s ->
  s = wrap_int (z + sum_itemPoints items).
Proof.
  revert z. induction items as [|it rest IH]; intros z.
  - simpl. intros [= <-]. f_equal; lia.
  - rewrite itemsLoop_cons. simpl.
    assert (Hstep : forall c, itemsLoop rest (wrap_int (z + c)) = Some s ->
                         s = wrap_int (z + (c + sum_itemPoints rest))).
    { intros c H. rewrite (IH _ H). f_equal; lia. }
    unfold itemPoints at 2. destruct (description_counts it) eqn:Hd.
    + destruct (strconv.ParseFloat (Price it)) as [f|] eqn:Hp; [|discriminate].
      rewrite int_add_wrap. unfold itemPoints. rewrite Hd, Hp. apply Hstep.
    + replace (wrap_int z) with (wrap_int (z + 0)) by (f_equal; lia).
      apply Hstep.
Qed.

Lemma itemsLoop_Permutation (items items' : list item) :
  items ≡ₚ items' ->
  forall pointTotal, itemsLoop items pointTotal = itemsLoop items' pointTotal.
Proof.
  induction 1 as [|x l l' _ IH|x y l|l l' l'' _ IH1 _ IH2]; intros pointTotal.
  - reflexivity.
  - rewrite !itemsLoop_cons.
    destruct (description_counts x); [|apply IH].
    destruct (strconv.ParseFloat (Price x)); [apply IH | reflexivity].
  - rewrite !itemsLoop_cons.
    destruct (description_counts x), (description_counts y);
      try reflexivity;
      destruct (strconv.ParseFloat (Price x)),
               (strconv.ParseFloat (Price y));
      try reflexivity.
    now rewrite int_add_swap.
  - now rewrite IH1, IH2.
Qed.

(** X8: the order of the items does not matter: a receipt whose items are
    those of [r] in another order gets what [r] gets from the computation,
    the same tally or the same error. *)
Theorem calculate_items_order (r : receipt) (items' : list item) :
  Items r ≡ₚ items' ->
  calculate (set_Items r items') = calculate r.
Proof.
  intros Hperm. unfold calculate, bind, retailerRule. simpl.
  change (totalRules (set_Items r items')) with (totalRules r).
  destruct (totalRules r _) as [pt| |]; try reflexivity.
  unfold itemRules, itemPairs. simpl.
  rewrite <- (Permutation_length Hperm).
  rewrite <- (itemsLoop_Permutation _ _ Hperm).
  reflexivity.
Qed.

(** ** The tally as a sum *)

Lemma retailerLoop_count (chars : list Z) (z : Z) :
  retailerLoop chars (wrap_int z) = wrap_int (z + count alphanumeric chars).
Proof.
  revert z. induction chars as [|char rest IH]; intros z; simpl.
  - f_equal; lia.
  - fold (alphanumeric char). destruct (alphanumeric char).
    + rewrite int_add_wrap, IH. f_equal; lia.
    + rewrite IH. f_equal; lia.
Qed.

Lemma roundDollar_wrap (totalFloat : float64) (z : Z) :
  roundDollar totalFloat (wrap_int z)
  = wrap_int (z + if float_eq (math.Mod totalFloat float_1) float_zero
                  then 50 else 0).
Proof.
  unfold roundDollar. destruct (float_eq _ _);
    [apply int_add_wrap | f_equal; lia].
Qed.

Lemma quarterMultiple_wrap (totalFloat : float64) (z : Z) :
  quarterMultiple totalFloat (wrap_int z)
  = wrap_int (z + if float_eq (math.Mod totalFloat float_0_25) float_zero
                  then 25 else 0).
Proof.
  unfold quarterMultiple. destruct (float_eq _ _);
    [apply int_add_wrap | f_equal; lia].
Qed.

Lemma itemPairs_wrap (items : list item) (z : Z) :
  itemPairs items (wrap_int z)
  = wrap_int (z + Z.of_nat (length items) / 2 * 5).
Proof.
  unfold itemPairs, int_add, int_mul.
  rewrite wrap_int_add_l, wrap_int_add_r.
  rewrite Z.quot_div_nonneg by lia. reflexivity.
Qed.

Lemma oddDay_wrap (dayInt z : Z) :
  oddDay dayInt (wrap_int z)
  = wrap_int (z + if Z.rem dayInt 2 =? 1 then 6 else 0).
Proof.
  unfold oddDay. destruct (_ =? 1); [apply int_add_wrap | f_equal; lia].
Qed.

Lemma afternoon_wrap (hourInt z : Z) :
  afternoon hourInt (wrap_int z)
  = wrap_int (z + if (hourInt =? 14) || (hourInt =? 15) then 10 else 0).
Proof.
  unfold afternoon. destruct (_ || _); [apply int_add_wrap | f_equal; lia].
Qed.

Lemma slice_checked_8_10 (s : string) :
  slice_checked s 8 10 = if len s <? 10 then None else Some (slice s 8 10).
Proof.
  unfold slice_checked.
  destruct (Z.leb_spec 10 (len s)), (Z.ltb_spec (len s) 10);
    try lia; reflexivity.
Qed.

Lemma slice_checked_0_2 (s : string) :
  slice_checked s 0 2 = if len s <? 2 then None else Some (slice s 0 2).
Proof.
  unfold slice_checked.
  destruct (Z.leb_spec 2 (len s)), (Z.ltb_spec (len s) 2);
    try lia; reflexivity.
Qed.

(** X9: a tally is the sum of what the rules add, each rule on its own
    field, reduced to the range of [int]: one per alphanumeric rune of the
    retailer, 50 and 25 from the two tests on the total, 5 per pair of
    items, the points of the items, 6 from the day and 10 from the hour.
    When the sum fits [int] the tally is the sum. *)
Theorem calculate_is_sum (r : receipt) (s : Z) :
  calculate r = Score s ->
  exists (totalFloat : float64) (dayInt hourInt : Z),
    strconv.ParseFloat (Total r) = Some totalFloat
    /\ strconv.Atoi (slice (PurchaseDate r) 8 10) = Some dayInt
    /\ strconv.Atoi (slice (PurchaseTime r) 0 2) = Some hourInt
    /\ let sum :=
         count alphanumeric (utf8.runes (Retailer r))
         + (if float_eq (math.Mod totalFloat float_1) float_zero
            then 50 else 0)
         + (if float_eq (math.Mod totalFloat float_0_25) float_zero
            then 25 else 0)
         + Z.of_nat (length (Items r)) / 2 * 5
         + sum_itemPoints (Items r)
         + (if Z.rem dayInt 2 =? 1 then 6 else 0)
         + (if (hourInt =? 14) || (hourInt =? 15) then 10 else 0) in
       s = wrap_int sum
       /\ (int_min <= sum <= int_max -> s = sum).
Proof.
  unfold calculate, bind, retailerRule, totalRules, itemRules, dateRule,
    timeRule.
  rewrite slice_checked_8_10, slice_checked_0_2.
  destruct (strconv.ParseFloat (Total r)) as [totalFloat|]; [|discriminate].
  change 0 with (wrap_int 0) at 1.
  rewrite retailerLoop_count, roundDollar_wrap, quarterMultiple_wrap,
    itemPairs_wrap.
  destruct (itemsLoop (Items r) _) as [pt|] eqn:Hloop; [|discriminate].
  apply itemsLoop_sum in Hloop. subst pt.
  destruct (len (PurchaseDate r) <? 10); [discriminate|].
  destruct (strconv.Atoi (slice (PurchaseDate r) 8 10)) as [dayInt|];
    [|discriminate].
  destruct (len (PurchaseTime r) <? 2); [discriminate|].
  destruct (strconv.Atoi (slice (PurchaseTime r) 0 2)) as [hourInt|];
    [|discriminate].
  rewrite oddDay_wrap, afternoon_wrap. intros [= <-].
  exists totalFloat, dayInt, hourInt.
  split; [reflexivity|]. split; [reflexivity|]. split; [reflexivity|].
  cbv zeta. split.
  - f_equal; lia.
  - intros Hfit. rewrite <- (wrap_int_id _ Hfit). f_equal; lia.
Qed.

(** ** When a query panics, and when it finds nothing *)

Lemma calculate_Panic_iff (r : receipt) :
  calculate r = Panic <->
  strconv.ParseFloat (Total r) <> None
  /\ Forall price_passes (Items r)
  /\ (len (PurchaseDate r) < 10
      \/ (strconv.Atoi (slice (PurchaseDate r) 8 10) <> None
          /\ len (PurchaseTime r) < 2)).
Proof.
  unfold calculate, bind, retailerRule, totalRules, itemRules, dateRule,
    timeRule.
  rewrite slice_checked_8_10, slice_checked_0_2.
  destruct (strconv.ParseFloat (Total r)) as [totalFloat|];
    [|split; [discriminate | intros [H _]; now contradiction H]].
  destruct (itemsLoop (Items r) _) as [pt|] eqn:Hloop.
  - assert (Hall : Forall price_passes (Items r)).
    { eapply itemsLoop_Some_iff. rewrite Hloop. discriminate. }
    destruct (Z.ltb_spec (len (PurchaseDate r)) 10) as [Hd|Hd].
    + split; [intros _ | reflexivity].
      split; [discriminate|]. split; [exact Hall | now left].
    + destruct (strconv.Atoi (slice (PurchaseDate r) 8 10)) as [dayInt|].
      * destruct (Z.ltb_spec (len (PurchaseTime r)) 2) as [Ht|Ht].
        -- split; [intros _ | reflexivity].
           split; [discriminate|]. split; [exact Hall|]. right.
           split; [discriminate | exact Ht].
        -- destruct (strconv.Atoi (slice (PurchaseTime r) 0 2));
             (split; [discriminate | intros (_ & _ & [H|[_ H]]); lia]).
      * split; [discriminate|].
        intros (_ & _ & [H|[H _]]); [lia | now contradiction H].
  - split; [discriminate|]. intros (_ & Hall & _). exfalso.
    eapply itemsLoop_Some_iff in Hall. apply Hall. exact Hloop.
Qed.

(** X7: a query panics exactly on a stored receipt without cached points
    whose total parses and whose prices pass, and whose date has fewer
    than 10 bytes, or whose day parses and whose time has fewer than 2
    bytes.  A total or a price that does not parse, or cached points,
    keep the slice expressions from being reached. *)
Theorem getPoints_panics_iff (id : string) (receipts : list receipt) :
  fst (getPoints id receipts) = exit_panic <->
  exists i r,
    getReceiptById receipts id = Some (i, r) /\ Points r = 0
    /\ strconv.ParseFloat (Total r) <> None
    /\ Forall price_passes (Items r)
    /\ (len (PurchaseDate r) < 10
        \/ (strconv.Atoi (slice (PurchaseDate r) 8 10) <> None
            /\ len (PurchaseTime r) < 2)).
Proof.
  split.
  - unfold getPoints.
    destruct (getReceiptById receipts id) as [[i r]|] eqn:Hg; [|discriminate].
    destruct (Z.eqb_spec (Points r) 0) as [Hz|Hz]; simpl; [|discriminate].
    destruct (calculate r) eqn:Hc; try discriminate.
    intros _. exists i, r. split; [reflexivity|]. split; [exact Hz|].
    now apply calculate_Panic_iff.
  - intros (i & r & Hg & Hz & H).
    apply calculate_Panic_iff in H.
    now rewrite (getPoints_uncached _ _ _ _ Hg Hz), H.
Qed.

(** X10: a query answers 404 exactly when no record of the slice carries
    the identifier, and then the slice is left as it is; the lookup
    compares whole strings, byte by byte. *)
Theorem getPoints_not_found_iff (id : string) (receipts : list receipt) :
  (fst (getPoints id receipts) = exit_not_found
   <-> forall r, r ∈ receipts -> ID r <> id)
  /\ (fst (getPoints id receipts) = exit_not_found ->
      snd (getPoints id receipts) = receipts).
Proof.
  assert (Hiff : fst (getPoints id receipts) = exit_not_found
                 <-> getReceiptById receipts id = None).
  { unfold getPoints.
    destruct (getReceiptById receipts id) as [[i r]|]; [|tauto].
    split; [|discriminate].
    destruct (negb (Points r =? 0)); [discriminate|].
    destruct (calculate r); discriminate. }
  split.
  - rewrite Hiff. split; [apply getReceiptById_None|].
    intros Hno. destruct (getReceiptById receipts id) as [[i r]|] eqn:Hg;
      [|reflexivity].
    apply getReceiptById_Some in Hg as [Hi Hid].
    exfalso. apply (Hno r); [|exact Hid].
    apply list_elem_of_lookup. now exists i.
  - rewrite Hiff. intros Hg. now rewrite (getPoints_not_found _ _ Hg).
Qed.

(** X11: validation is deferred.  A body whose total is absent or no
    number, without [id] member and without points, is accepted with 200
    under a generated identifier not in use; every query for that
    identifier, after any later requests, answers 400 "invalid total". *)
Theorem unparsable_total_accepted_never_scored
    (newId : string) (j : receiptJSON) (receipts : list receipt)
    (later : list request) :
  jID j = None ->
  decode_field (jPoints j) 0 = 0 ->
  strconv.ParseFloat (decode_field (jTotal j) "") = None ->
  getReceiptById receipts newId = None ->
  fst (processReceipt newId (Decodable j) receipts)
  = {| status := StatusOK; body := ReturnID newId |}
  /\ response_of
       (fst (getPoints newId
               (serve_all later
                  (snd (processReceipt newId (Decodable j) receipts)))))
     = Some (client_error "Unable to calculate points (invalid total)").
Proof.
  intros Hid Hpoints Htotal Hfresh.
  destruct (BindJSON (Decodable j) (set_ID zero_receipt newId)) as [r|] eqn:Hb.
  2:{ simpl in Hb. rewrite Hpoints in Hb. discriminate. }
  destruct (processReceipt_round_trip newId j receipts r Hid Hb Hfresh)
    as [Hresp Hg].
  split; [exact Hresp|].
  destruct (serve_all_keeps_found later _ _ _ _ Hg) as (r' & Hg' & Hc).
  rewrite (getPoints_response _ _ _ _ Hg'), (cached_copy_response _ _ Hc).
  assert (Hr : Points r = 0 /\ Total r = decode_field (jTotal j) "").
  { simpl in Hb. destruct (in_int_range _); [|discriminate].
    injection Hb as <-. split; [exact Hpoints | reflexivity]. }
  destruct Hr as [HP HT].
  unfold record_response. rewrite HP. simpl.
  unfold calculate, bind, retailerRule, totalRules.
  now rewrite HT, Htotal.
Qed.

End Scoring.

(** ** Rounding to float64 *)

Lemma digits2_pos_bounds (p : positive) :
  2 ^ (Zpos (digits2_pos p) - 1) <= Zpos p < 2 ^ Zpos (digits2_pos p).
Proof.
  induction p as [p IH|p IH|]; simpl digits2_pos.
  - rewrite Pos2Z.inj_succ, Z.pow_succ_r by lia.
    replace (Z.succ (Zpos (digits2_pos p)) - 1) with (Z.succ (Zpos (digits2_pos p) - 1)) by lia.
    rewrite Z.pow_succ_r by lia. lia.
  - rewrite Pos2Z.inj_succ, Z.pow_succ_r by lia.
    replace (Z.succ (Zpos (digits2_pos p)) - 1) with (Z.succ (Zpos (digits2_pos p) - 1)) by lia.
    rewrite Z.pow_succ_r by lia. lia.
  - simpl. lia.
Qed.

Lemma shr_1_m (mrs : shr_record) :
  0 <= shr_m mrs -> shr_m (shr_1 mrs) = shr_m mrs / 2.
Proof.
  destruct mrs as [m r s]. cbn [shr_m]. intros Hm.
  destruct m as [|[p|p|]|p]; cbn [shr_1 shr_m]; try lia; try reflexivity.
  - apply Z.div_unique with 1; lia.
  - apply Z.div_unique with 0; lia.
Qed.

Lemma iter_shr_1_m (n : positive) (mrs : shr_record) :
  0 <= shr_m mrs ->
  shr_m (SpecFloat.iter_pos shr_1 n mrs) = shr_m mrs / 2 ^ Zpos n.
Proof.
  assert (Hpow : forall k : positive, 0 < 2 ^ Zpos k)
    by (intros k; apply Z.pow_pos_nonneg; lia).
  revert mrs. induction n as [n IH|n IH|]; intros mrs Hm.
  - change (SpecFloat.iter_pos shr_1 n~1 mrs)
      with (SpecFloat.iter_pos shr_1 n (SpecFloat.iter_pos shr_1 n (shr_1 mrs))).
    assert (H1 : 0 <= shr_m (shr_1 mrs))
      by (rewrite shr_1_m by lia; apply Z.div_pos; lia).
    assert (H2 : 0 <= shr_m (SpecFloat.iter_pos shr_1 n (shr_1 mrs))).
    { rewrite IH by lia. apply Z.div_pos; [lia | apply Hpow]. }
    rewrite (IH _ H2), (IH _ H1), shr_1_m by lia.
    pose proof (Hpow n).
    rewrite !Z.div_div by lia.
    f_equal. change 2 with (2 ^ 1) at 1. rewrite <- !Z.pow_add_r by lia.
    f_equal. lia.
  - change (SpecFloat.iter_pos shr_1 n~0 mrs)
      with (SpecFloat.iter_pos shr_1 n (SpecFloat.iter_pos shr_1 n mrs)).
    assert (H2 : 0 <= shr_m (SpecFloat.iter_pos shr_1 n mrs)).
    { rewrite IH by lia. apply Z.div_pos; [lia | apply Hpow]. }
    rewrite (IH _ H2), (IH _ Hm).
    pose proof (Hpow n).
    rewrite !Z.div_div by lia.
    f_equal. rewrite <- Z.pow_add_r by lia. f_equal. lia.
  - change (SpecFloat.iter_pos shr_1 1 mrs) with (shr_1 mrs).
    rewrite shr_1_m by lia. reflexivity.
Qed.

Lemma shr_record_of_loc_m (m : Z) (l : location) :
  shr_m (shr_record_of_loc m l) = m.
Proof. destruct l as [|[| |]]; reflexivity. Qed.

Lemma fexp64 (x : Z) : fexp prec64 emax64 x = Z.max (x - 53) (-1074).
Proof. reflexivity. Qed.

Lemma shr_fexp_emin (m e : Z) (l : location) :
  -1074 <= snd (shr_fexp prec64 emax64 m e l).
Proof.
  unfold shr_fexp, shr. rewrite fexp64.
  destruct (Z.max (Zdigits2 m + e - 53) (-1074) - e) eqn:E; simpl; lia.
Qed.

Lemma shr_fexp_pos (m e : Z) (l : location) :
  0 < m -> -1074 <= e ->
  0 < shr_m (fst (shr_fexp prec64 emax64 m e l)).
Proof.
  intros Hm He. unfold shr_fexp, shr. rewrite fexp64.
  destruct m as [|p|p]; try lia. simpl Zdigits2.
  pose proof (digits2_pos_bounds p) as [Hlo Hhi].
  destruct (Z.max (Zpos (digits2_pos p) + e - 53) (-1074) - e) as [|k|k] eqn:E;
    simpl fst; try (rewrite shr_record_of_loc_m; lia).
  rewrite iter_shr_1_m by (rewrite shr_record_of_loc_m; lia).
  rewrite shr_record_of_loc_m.
  assert (Hk : Zpos k = Zpos (digits2_pos p) - 53) by lia.
  apply Z.div_str_pos. split; [apply Z.pow_pos_nonneg; lia|].
  etransitivity; [|exact Hlo]. apply Z.pow_le_mono_r; lia.
Qed.

Lemma round_nearest_even_pos (m : Z) (l : location) :
  0 < m -> 0 < round_nearest_even m l.
Proof.
  intros Hm. destruct l as [|[| |]]; simpl; try lia.
  destruct (Z.even m); lia.
Qed.

Lemma binary_round_aux_cases (s : bool) (m e : Z) (l : location) :
  0 < m -> -1074 <= e ->
  (exists m' e', binary_round_aux prec64 emax64 s m e l = S754_finite s m' e'
                 /\ -1074 <= e')
  \/ binary_round_aux prec64 emax64 s m e l = S754_infinity s.
Proof.
  intros Hm He. unfold binary_round_aux.
  pose proof (shr_fexp_pos m e l Hm He) as H1.
  pose proof (shr_fexp_emin m e l) as H1e.
  destruct (shr_fexp prec64 emax64 m e l) as [mrs' e']. simpl in H1, H1e.
  pose proof (shr_fexp_pos _ e' loc_Exact
                (round_nearest_even_pos _ (loc_of_shr_record mrs') H1) H1e) as H2.
  pose proof (shr_fexp_emin (round_nearest_even (shr_m mrs') (loc_of_shr_record mrs')) e' loc_Exact) as H2e.
  destruct (shr_fexp prec64 emax64 _ e' loc_Exact) as [mrs'' e'']. simpl in H2, H2e.
  destruct (shr_m mrs'') as [|p|p]; try lia.
  destruct (e'' <=? emax64 - prec64); [left; eauto | now right].
Qed.

Lemma binary_round_aux_finite_emin (s : bool) (m e : Z) (l : location) s' m' e' :
  binary_round_aux prec64 emax64 s m e l = S754_finite s' m' e' -> -1074 <= e'.
Proof.
  unfold binary_round_aux.
  destruct (shr_fexp prec64 emax64 m e l) as [mrs1 e1].
  pose proof (shr_fexp_emin (round_nearest_even (shr_m mrs1) (loc_of_shr_record mrs1)) e1 loc_Exact) as H2e.
  destruct (shr_fexp prec64 emax64 _ e1 loc_Exact) as [mrs2 e2]. simpl in H2e.
  destruct (shr_m mrs2) as [|p|p]; try discriminate.
  destruct (e2 <=? emax64 - prec64); [|discriminate].
  now intros [= _ _ <-].
Qed.

Lemma binary_round_finite_emin (s : bool) (p : positive) (e : Z) s' m' e' :
  binary_round prec64 emax64 s p e = S754_finite s' m' e' -> -1074 <= e'.
Proof.
  unfold binary_round. destruct (shl_align _ _ _) as [mz ez].
  apply binary_round_aux_finite_emin.
Qed.

Lemma binary_round_cases (s : bool) (p : positive) (e : Z) :
  -1074 <= e ->
  (exists m' e', binary_round prec64 emax64 s p e = S754_finite s m' e')
  \/ binary_round prec64 emax64 s p e = S754_infinity s.
Proof.
  intros He. unfold binary_round.
  destruct (shl_align p e _) as [mz ez] eqn:Ha.
  assert (Hez : -1074 <= ez).
  { unfold shl_align in Ha. rewrite fexp64 in Ha.
    destruct (Z.max _ _ - e) eqn:E; injection Ha as <- <-; lia. }
  destruct (binary_round_aux_cases s (Zpos mz) ez loc_Exact) as [(m' & e' & H & _)|H];
    [lia | exact Hez | left; eauto | now right].
Qed.

(** A remainder that is not zero is not rounded to zero. *)
Lemma binary_normalize_eq_zero (z e : Z) (s : bool) :
  -1074 <= e ->
  float_eq (binary_normalize prec64 emax64 z e s) float_zero = (z =? 0).
Proof.
  intros He. destruct z as [|p|p]; simpl binary_normalize.
  - now destruct s.
  - destruct (binary_round_cases false p e He) as [(m' & e' & ->)| ->];
      reflexivity.
  - destruct (binary_round_cases true p e He) as [(m' & e' & ->)| ->];
      reflexivity.
Qed.

Lemma Mod_eq_zero (sx : bool) (mx my : positive) (ex ey : Z) :
  -1074 <= ex -> -1074 <= ey ->
  float_eq (math.Mod (S754_finite sx mx ex) (S754_finite false my ey)) float_zero
  = ((Zpos mx * 2 ^ (ex - Z.min ex ey)) mod (Zpos my * 2 ^ (ey - Z.min ex ey)) =? 0).
Proof.
  intros Hx Hy. unfold math.Mod.
  rewrite binary_normalize_eq_zero by lia.
  set (R := (_ mod _)).
  destruct sx; simpl cond_Zopp; [|reflexivity].
  destruct (Z.eqb_spec R 0), (Z.eqb_spec (- R) 0); try reflexivity; lia.
Qed.

Lemma round_dollar_is_quarter_multiple (sx : bool) (mx : positive) (ex : Z) :
  -1074 <= ex ->
  float_eq (math.Mod (S754_finite sx mx ex) float_1) float_zero = true ->
  float_eq (math.Mod (S754_finite sx mx ex) float_0_25) float_zero = true.
Proof.
  intros Hx.
  change float_1 with (S754_finite false 4503599627370496 (-52)).
  change float_0_25 with (S754_finite false 4503599627370496 (-54)).
  rewrite !Mod_eq_zero by lia.
  change (Zpos 4503599627370496) with (2 ^ 52).
  rewrite !Z.eqb_eq.
  assert (Hpow : forall k, 0 <= k -> 0 < 2 ^ k)
    by (intros k Hk; apply Z.pow_pos_nonneg; lia).
  intros H1. apply Z.mod_divide in H1.
  2:{ pose proof (Hpow 52). pose proof (Hpow (-52 - Z.min ex (-52))). lia. }
  apply Z.mod_divide.
  { pose proof (Hpow 52). pose proof (Hpow (-54 - Z.min ex (-54))). lia. }
  destruct H1 as [k Hk].
  destruct (Z.le_gt_cases (-52) ex) as [Ha|Ha].
  - rewrite (Z.min_r ex (-52)) in Hk by lia. rewrite (Z.min_r ex (-54)) by lia.
    replace (-52 - -52) with 0 in Hk by lia.
    replace (-54 - -54) with 0 by lia.
    replace (ex - -54) with ((ex - -52) + 2) by lia.
    rewrite Z.pow_add_r by lia. exists (k * 4).
    rewrite Z.mul_assoc, Hk. simpl (2 ^ 2). simpl (2 ^ 0). lia.
  - destruct (Z.le_gt_cases (-54) ex) as [Hb|Hb].
    + rewrite (Z.min_l ex (-52)) in Hk by lia. rewrite (Z.min_r ex (-54)) by lia.
      replace (ex - ex) with 0 in Hk by lia.
      replace (-54 - -54) with 0 by lia.
      exists (k * 2 ^ (-52 - ex) * 2 ^ (ex - -54)).
      simpl (2 ^ 0) in *. rewrite Z.mul_1_r in Hk. rewrite Hk. lia.
    + rewrite (Z.min_l ex (-52)) in Hk by lia. rewrite (Z.min_l ex (-54)) by lia.
      replace (ex - ex) with 0 in * by lia.
      replace (-52 - ex) with ((-54 - ex) + 2) in Hk by lia.
      rewrite Z.pow_add_r in Hk by lia.
      exists (k * 4). rewrite Hk. simpl (2 ^ 2). lia.
Qed.

Lemma special_not_finite (s : string) (val : float64) (n : Z) :
  strconv.special s = Some (val, n) ->
  match val with S754_finite _ _ _ => False | _ => True end.
Proof.
  unfold strconv.special. destruct s as [|c rest]; [discriminate|].
  repeat match goal with
         | |- context [if ?b then _ else _] => destruct b
         end; intros [= <- _] || discriminate; exact I.
Qed.

Lemma float_of_binary_finite_emin neg m e s' m' e' :
  float_of_binary neg m e = S754_finite s' m' e' -> -1074 <= e'.
Proof.
  unfold float_of_binary. destruct m; try discriminate.
  apply binary_round_finite_emin.
Qed.

Lemma float_of_decimal_finite_emin neg m e s' m' e' :
  float_of_decimal neg m e = S754_finite s' m' e' -> -1074 <= e'.
Proof.
  unfold float_of_decimal. destruct m; try discriminate.
  destruct (0 <=? e); [apply binary_round_finite_emin|].
  destruct (SFdiv_core_binary _ _ _ _ _ _) as [[q e1] l].
  apply binary_round_aux_finite_emin.
Qed.

Lemma ParseFloat_finite_emin (s : string) sx mx ex :
  strconv.ParseFloat s = Some (S754_finite sx mx ex) -> -1074 <= ex.
Proof.
  unfold strconv.ParseFloat.
  destruct (strconv.special s) as [[val n]|] eqn:Hs.
  - apply special_not_finite in Hs.
    destruct (n =? len s); [|discriminate]. intros [= ->]. contradiction.
  - destruct (strconv.readFloat s) as [r|]; [|discriminate].
    destruct (negb (strconv.rf_n r =? len s)); [discriminate|].
    destruct (strconv.rf_hex r).
    + destruct (float_of_binary _ _ _) eqn:Hf; try discriminate;
        intros [= -> -> ->]. now apply float_of_binary_finite_emin in Hf.
    + destruct (float_of_decimal _ _ _) eqn:Hf; try discriminate;
        intros [= -> -> ->]. now apply float_of_decimal_finite_emin in Hf.
Qed.

Lemma parsed_round_dollar_is_quarter_multiple (s : string) (f : float64) :
  strconv.ParseFloat s = Some f ->
  float_eq (math.Mod f float_1) float_zero = true ->
  float_eq (math.Mod f float_0_25) float_zero = true.
Proof.
  intros Hp. destruct f as [b|b| |sx mx ex].
  - intros H. exact H.
  - discriminate.
  - discriminate.
  - apply round_dollar_is_quarter_multiple.
    now apply ParseFloat_finite_emin in Hp.
Qed.

(** X12: a total that is a round dollar amount is a multiple of 0.25 as
    well, as float64 values go: the rules on the total add nothing, 25, or
    50 and 25, never 50 alone. *)
Theorem totalRules_never_50_alone (r : receipt) (pointTotal q : Z) :
  totalRules r pointTotal = Score q ->
  q = pointTotal \/ q = int_add pointTotal 25
  \/ q = int_add (int_add pointTotal 50) 25.
Proof.
  unfold totalRules.
  destruct (strconv.ParseFloat (Total r)) as [f|] eqn:Hp; [|discriminate].
  intros [= <-]. unfold roundDollar, quarterMultiple.
  pose proof (parsed_round_dollar_is_quarter_multiple _ _ Hp) as H.
  destruct (float_eq (math.Mod f float_1) float_zero).
  - rewrite H by reflexivity. auto.
  - destruct (float_eq (math.Mod f float_0_25) float_zero); auto.
Qed.

Section Fields.

Context {go : GoInstallation}.

(** ** The rule on the retailer *)

Lemma byte_val_nonneg (c : ascii) : 0 <= byte_val c.
Proof. unfold byte_val. lia. Qed.

Lemma runes_ascii (s : string) :
  all_bytes is_ascii s = true -> utf8.runes s = bytes s.
Proof.
  unfold utf8.runes. induction s as [|c rest IH]; simpl; [reflexivity|].
  intros H. apply andb_true_iff in H as [Hc Hrest].
  apply Z.ltb_lt in Hc. rewrite (DecodeRuneInString_ascii c rest Hc).
  simpl. now rewrite IH.
Qed.

Lemma alphanumeric_ascii (c : Z) :
  0 <= c < 0x80 -> alphanumeric c = ascii_alphanumeric c.
Proof.
  intros Hc. unfold alphanumeric, unicode.IsLetter, unicode.IsDigit,
    unicode.MaxLatin1, unicode.latin1_letter, ascii_alphanumeric.
  repeat match goal with
         | |- context [?a <=? ?b] => destruct (Z.leb_spec a b); try lia
         | |- context [?a =? ?b] => destruct (Z.eqb_spec a b); try lia
         end; reflexivity.
Qed.

Lemma count_ascii (s : string) :
  all_bytes is_ascii s = true ->
  count alphanumeric (bytes s) = count ascii_alphanumeric (bytes s).
Proof.
  induction s as [|c rest IH]; simpl; [reflexivity|].
  intros H. apply andb_true_iff in H as [Hc Hrest].
  apply Z.ltb_lt in Hc.
  rewrite alphanumeric_ascii by (pose proof (byte_val_nonneg c); lia).
  now rewrite IH.
Qed.

Lemma count_bounds (f : Z -> bool) (l : list Z) :
  0 <= count f l <= Z.of_nat (length l).
Proof. induction l as [|x l IH]; simpl; [lia|]. destruct (f x); lia. Qed.

Lemma length_bytes (s : string) : length (bytes s) = String.length s.
Proof. induction s; simpl; congruence. Qed.

(** X13: on a retailer name of ASCII bytes the runes are the bytes, and
    the rule on the retailer gives one point per byte in [0-9A-Za-z],
    whatever the installation's tables; the points lie between 0 and the
    length of the name. *)
Theorem retailer_ascii (r : receipt) :
  all_bytes is_ascii (Retailer r) = true ->
  len (Retailer r) <= int_max ->
  retailerRule r 0 = Score (count ascii_alphanumeric (bytes (Retailer r)))
  /\ 0 <= count ascii_alphanumeric (bytes (Retailer r)) <= len (Retailer r).
Proof.
  intros Hascii Hlen.
  pose proof (count_bounds ascii_alphanumeric (bytes (Retailer r))) as Hb.
  rewrite length_bytes in Hb. fold (len (Retailer r)) in Hb.
  split; [|exact Hb].
  unfold retailerRule. change 0 with (wrap_int 0) at 1.
  rewrite retailerLoop_count, runes_ascii, count_ascii by exact Hascii.
  f_equal. apply wrap_int_id.
  assert (int_min = -9223372036854775808) by reflexivity. simpl. lia.
Qed.

(** ** The rule on the day *)

Lemma oddDay_positive_odd (dayInt pointTotal : Z) :
  oddDay dayInt pointTotal
  = if (0 <? dayInt) && Z.odd dayInt then int_add pointTotal 6 else pointTotal.
Proof.
  unfold oddDay. rewrite Zrem_odd.
  destruct (Z.odd dayInt); [|now rewrite andb_false_r].
  rewrite andb_true_r.
  destruct (Z.ltb_spec 0 dayInt).
  - rewrite Z.sgn_pos by lia. reflexivity.
  - destruct (Z.eq_dec dayInt 0) as [->|]; [reflexivity|].
    rewrite Z.sgn_neg by lia. reflexivity.
Qed.

Lemma length_substring (n m : nat) (s : string) :
  (n + m <= String.length s)%nat -> String.length (substring n m s) = m.
Proof.
  revert n m. induction s as [|c s IH]; intros n m H; simpl in H.
  - assert (n = O /\ m = O) as [-> ->] by lia. reflexivity.
  - destruct n as [|n]; simpl.
    + destruct m as [|m]; simpl; [reflexivity|]. f_equal. apply (IH O). lia.
    + apply IH. lia.
Qed.

Lemma digits_value_one (c : ascii) (acc n : Z) :
  strconv.digits_value (String c "") acc = Some n ->
  acc * 10 <= n <= acc * 10 + 9.
Proof.
  simpl. destruct (_ && _) eqn:E; [|discriminate].
  intros [= <-]. apply andb_true_iff in E as [E1 E2].
  apply Z.leb_le in E1, E2. lia.
Qed.

Lemma Atoi_two_bytes (dd : string) (d : Z) :
  String.length dd = 2%nat -> strconv.Atoi dd = Some d -> -9 <= d <= 99.
Proof.
  destruct dd as [|a [|b [|]]]; try discriminate. intros _.
  unfold strconv.Atoi.
  destruct ((byte_val a =? 0x2D) || (byte_val a =? 0x2B)) eqn:Hsign.
  - destruct (strconv.digits_value (String b "") 0) as [n|] eqn:Hd; [|discriminate].
    apply digits_value_one in Hd.
    destruct (byte_val a =? 0x2D); destruct (in_int_range _); intros [= <-] || discriminate; lia.
  - destruct (strconv.digits_value (String a (String b "")) 0) as [n|] eqn:Hd; [|discriminate].
    simpl in Hd. destruct (_ && _) eqn:E in Hd; [|discriminate].
    apply digits_value_one in Hd.
    apply andb_true_iff in E as [E1 E2]. apply Z.leb_le in E1, E2.
    apply orb_false_iff in Hsign as [Hs _]. rewrite Hs.
    destruct (in_int_range _); intros [= <-] || discriminate; lia.
Qed.

(** X14: the rule on the date reads bytes 8 and 9 only, as a number with
    an optional sign: the day lies between -9 and 99, nothing else of the
    date is checked, and 6 points are added exactly when the day is
    positive and odd. *)
Theorem dateRule_day (r : receipt) (pointTotal q : Z) :
  dateRule r pointTotal = Score q ->
  exists dayInt,
    strconv.Atoi (slice (PurchaseDate r) 8 10) = Some dayInt
    /\ -9 <= dayInt <= 99
    /\ q = if (0 <? dayInt) && Z.odd dayInt
           then int_add pointTotal 6 else pointTotal.
Proof.
  unfold dateRule. rewrite slice_checked_8_10.
  destruct (Z.ltb_spec (len (PurchaseDate r)) 10) as [|Hlen]; [discriminate|].
  destruct (strconv.Atoi (slice (PurchaseDate r) 8 10)) as [dayInt|] eqn:Ha;
    [|discriminate].
  intros [= <-]. exists dayInt. split; [reflexivity|]. split.
  - apply (Atoi_two_bytes (slice (PurchaseDate r) 8 10)); [|exact Ha].
    unfold slice. rewrite length_substring; [reflexivity|].
    unfold len in Hlen. lia.
  - apply oddDay_positive_odd.
Qed.

End Fields.

(** * The further properties at concrete receipts *)

Lemma submit_then_query_witness :
  getPoints_amd64 "adb6b560-0eef-42bc-9d16-df48f30e89b2"
    (snd (processReceipt "adb6b560-0eef-42bc-9d16-df48f30e89b2"
            (Decodable corner_market_members) [zero_score]))
  = (exit_computed 109, [zero_score; set_Points corner_market 109]).
Proof.
  apply (submit_then_query (go := amd64)
           "adb6b560-0eef-42bc-9d16-df48f30e89b2" corner_market_members
           [zero_score] corner_market); reflexivity.
Defined.

Lemma getPoints_response_settled_witness :
  response_of
    (fst (getPoints_amd64 "adb6b560-0eef-42bc-9d16-df48f30e89b2"
            (serve_all (go := amd64)
               [Query "adb6b560-0eef-42bc-9d16-df48f30e89b2";
                Submit "7fb1377b-b223-49d9-a31a-5a02701dd310"
                  (Decodable client_points_members);
                Query "z"]
               [zero_score; corner_market])))
  = response_of
      (fst (getPoints_amd64 "adb6b560-0eef-42bc-9d16-df48f30e89b2"
              [zero_score; corner_market])).
Proof.
  apply (getPoints_response_settled (go := amd64)). vm_compute. discriminate.
Defined.

Lemma shadowed_record_never_written_witness :
  let receipts := [corner_market; set_Items corner_market []] in
  let later := [Query "adb6b560-0eef-42bc-9d16-df48f30e89b2";
                Query "adb6b560-0eef-42bc-9d16-df48f30e89b2"] in
  serve_all (go := amd64) later receipts !! 1%nat
  = Some (set_Items corner_market [])
  /\ (forall i r,
        getReceiptById (serve_all (go := amd64) later receipts)
          (ID (set_Items corner_market [])) = Some (i, r) ->
        (i < 1)%nat).
Proof.
  apply (shadowed_record_never_written (go := amd64)
           [corner_market; set_Items corner_market []] 0 1 corner_market
           (set_Items corner_market [])); [reflexivity | reflexivity | lia |
    reflexivity].
Defined.

Lemma calculate_items_order_witness :
  calculate (go := amd64)
    (set_Items (set_Items corner_market [gatorade; blank_item])
       [blank_item; gatorade])
  = calculate (go := amd64) (set_Items corner_market [gatorade; blank_item]).
Proof.
  apply (calculate_items_order (go := amd64)
           (set_Items corner_market [gatorade; blank_item])
           [blank_item; gatorade]).
  apply perm_swap.
Defined.

Lemma calculate_is_sum_witness :
  exists (totalFloat : float64) (dayInt hourInt : Z),
    strconv.ParseFloat (Total corner_market) = Some totalFloat
    /\ strconv.Atoi (slice (PurchaseDate corner_market) 8 10) = Some dayInt
    /\ strconv.Atoi (slice (PurchaseTime corner_market) 0 2) = Some hourInt
    /\ let sum :=
         count (alphanumeric (go := amd64))
           (utf8.runes (Retailer corner_market))
         + (if float_eq (math.Mod totalFloat float_1) float_zero
            then 50 else 0)
         + (if float_eq (math.Mod totalFloat float_0_25) float_zero
            then 25 else 0)
         + Z.of_nat (length (Items corner_market)) / 2 * 5
         + sum_itemPoints (go := amd64) (Items corner_market)
         + (if Z.rem dayInt 2 =? 1 then 6 else 0)
         + (if (hourInt =? 14) || (hourInt =? 15) then 10 else 0) in
       109 = wrap_int sum
       /\ (int_min <= sum <= int_max -> 109 = sum).
Proof.
  apply (calculate_is_sum (go := amd64) corner_market 109).
  vm_compute. reflexivity.
Defined.

Lemma unparsable_total_accepted_never_scored_witness :
  fst (processReceipt "7fb1377b-b223-49d9-a31a-5a02701dd310"
         (Decodable no_members) [corner_market])
  = {| status := StatusOK;
       body := ReturnID "7fb1377b-b223-49d9-a31a-5a02701dd310" |}
  /\ response_of
       (fst (getPoints_amd64 "7fb1377b-b223-49d9-a31a-5a02701dd310"
               (serve_all (go := amd64)
                  [Query "7fb1377b-b223-49d9-a31a-5a02701dd310"]
                  (snd (processReceipt "7fb1377b-b223-49d9-a31a-5a02701dd310"
                          (Decodable no_members) [corner_market])))))
     = Some (client_error "Unable to calculate points (invalid total)").
Proof.
  apply (unparsable_total_accepted_never_scored (go := amd64)
           "7fb1377b-b223-49d9-a31a-5a02701dd310" no_members [corner_market]
           [Query "7fb1377b-b223-49d9-a31a-5a02701dd310"]);
    reflexivity.
Defined.

Lemma totalRules_never_50_alone_witness :
  89 = 14 \/ 89 = int_add 14 25 \/ 89 = int_add (int_add 14 50) 25.
Proof.
  apply (totalRules_never_50_alone corner_market 14 89).
  vm_compute. reflexivity.
Defined.

Lemma retailer_ascii_witness :
  retailerRule (go := amd64) corner_market 0 = Score 14
  /\ 0 <= 14 <= len (Retailer corner_market).
Proof.
  apply (retailer_ascii (go := amd64) corner_market).
  - vm_compute. reflexivity.
  - vm_compute. discriminate.
Defined.

Lemma dateRule_day_witness :
  exists dayInt,
    strconv.Atoi (slice (PurchaseDate corner_market) 8 10) = Some dayInt
    /\ -9 <= dayInt <= 99
    /\ 99 = if (0 <? dayInt) && Z.odd dayInt then int_add 99 6 else 99.
Proof.
  apply (dateRule_day corner_market 99 99). vm_compute. reflexivity.
Defined.
